(** * go-pr: the Gaussian classifier of package [pr]

    A shallow embedding of [gauss.go] (the classifier, its scoring functions
    and its trainer) and of the [LabeledFeatureSet] interface of [pr.go],
    with the properties the specification states about them.

    Conventions of the embedding.
    - [float64] is the kernel's binary64 ([PrimFloat.float]): the same IEEE 754
      format and rounding as Go's float64, evaluated operation by operation,
      each one rounded (no fused multiply-add).
    - [int] is [Z] where the program reads it from a caller (labels, counts,
      dimensions); loop counters produced by [range] and by
      [for i := 0; i < n; i++] are [nat].  The integer arithmetic of the
      program is on slice lengths and indices below them.
    - [make] panics on a negative length.  What else can stop an allocation
      is left out: the limit of the run time on the length of a slice, the
      exhaustion of memory, and the wrap-around of the 64-bit [int] in
      [dim*dim].  The results below are those of runs whose allocations
      succeed.
    - A slice is a [list]; indexing outside it is a run-time panic, which the
      [go] monad below makes explicit.
    - [math.Log] and the operations of the matrix package
      (github.com/skelterjohn/go.matrix) are not part of this repository; the
      development is parametric in them. *)

From Stdlib Require Import ZArith Floats.
From stdpp Require Import base tactics option list.

Local Open Scope Z_scope.

(** ** Run-time panics *)

Module Go.

Inductive go (A : Type) : Type :=
| Ret (a : A)
| Panic.
Arguments Ret {A} a.
Arguments Panic {A}.

Definition bind {A B} (c : go A) (k : A → go B) : go B :=
  match c with
  | Ret a => k a
  | Panic => Panic
  end.

(** [s[i]] for an [int] index. *)
Definition index {A} (s : list A) (i : Z) : go A :=
  if i <? 0 then Panic
  else match s !! Z.to_nat i with
       | Some a => Ret a
       | None => Panic
       end.

(** [s[i]] for a loop counter. *)
Definition at_ {A} (s : list A) (i : nat) : go A :=
  match s !! i with
  | Some a => Ret a
  | None => Panic
  end.

(** [s[i] = f(s[i])], in place. *)
Definition update {A} (s : list A) (i : nat) (f : A → A) : go (list A) :=
  match s !! i with
  | Some a => Ret (<[i := f a]> s)
  | None => Panic
  end.

(** [make([]T, n)]: a negative length panics (a length beyond what the run
    time can allocate is not modelled). *)
Definition make {A} (n : Z) (zero : A) : go (list A) :=
  if n <? 0 then Panic else Ret (replicate (Z.to_nat n) zero).

(** A loop whose body may panic, over the counters [idx] in order. *)
Fixpoint for_each {I S} (idx : list I) (body : I → S → go S) (s : S) : go S :=
  match idx with
  | [] => Ret s
  | i :: rest => bind (body i s) (for_each rest body)
  end.

End Go.
Import Go.

Notation "x <- c ;; k" := (Go.bind c (fun x => k))
  (at level 100, c at next level, right associativity).

(** ** gauss.go: the classifier *)

Record GaussianClassifier : Type := {
  Means : list (list float);
  Precs : list (list float);
  LogCoefs : list float;
  (** [None] is the nil slice *)
  LogPrior : option (list float)
}.

(** [GaussianClassifier.LogLikelyhood] *)
Definition LogLikelyhood (gc : GaussianClassifier) (label : Z) (x : list float)
  : go float :=
  logP <- index (LogCoefs gc) label ;;
  mean <- index (Means gc) label ;;
  prec <- index (Precs gc) label ;;
  let dim := length mean in
  for_each (seq 0 (length mean)) (fun k logP =>
    xk <- at_ x k ;;
    mk <- at_ mean k ;;
    let vk := (xk - mk)%float in
    for_each (seq 0 (length mean)) (fun l logP =>
      xl <- at_ x l ;;
      ml <- at_ mean l ;;
      let vl := (xl - ml)%float in
      p <- at_ prec (k * dim + l)%nat ;;
      Ret (logP + vk * vl * p)%float) logP) logP.

(** [GaussianClassifier.LogPosterior] *)
Definition LogPosterior (gc : GaussianClassifier) (label : Z) (x : list float)
  : go float :=
  match LogPrior gc with
  | None => LogLikelyhood gc label x
  | Some logPrior =>
      ll <- LogLikelyhood gc label x ;;
      lp <- index logPrior label ;;
      Ret (ll + lp)%float
  end.

(** [GaussianClassifier.Classify]; the loop state is [(bestLabel, bestLogP)]. *)
Definition Classify_step (gc : GaussianClassifier) (x : list float)
    (lbl : nat) (best : Z * float) : go (Z * float) :=
  logP <- LogPosterior gc (Z.of_nat lbl) x ;;
  if (best.1 <? 0) || (best.2 <? logP)%float
  then Ret (Z.of_nat lbl, logP)
  else Ret best.

Definition Classify (gc : GaussianClassifier) (x : list float) : go Z :=
  best <- for_each (seq 0 (length (LogCoefs gc))) (Classify_step gc x)
            (-1, 0%float) ;;
  Ret best.1.

(** ** pr.go: the feature source

    [LabeledFeatureSet] is an interface; an implementation is given by what
    its methods return.  [FetchFeature label index x] fills the caller's
    buffer [x] with the feature: [FetchFeature lfs label index k] is the value
    it leaves in [x[k]]. *)

Record LabeledFeatureSet : Type := {
  Dim : Z;
  LabelCount : Z;
  FeatureCount : Z → Z;
  FetchFeature : Z → Z → nat → float
}.

(** The buffer [x] after [lfs.FetchFeature(lbl, i, x)]. *)
Definition fetch (lfs : LabeledFeatureSet) (lbl i : nat) (x : list float)
  : list float :=
  map (FetchFeature lfs (Z.of_nat lbl) (Z.of_nat i)) (seq 0 (length x)).

(** ** What the program imports

    [math.Log], and of go.matrix the inverse and the determinant of the dense
    [dim] x [dim] matrix over a row-major slice ([Inverse] is [None] when
    [mat.Inverse()] returns an error, else the elements [inv.Array()] would
    give). *)

Class Imports : Type := {
  math_Log : float → float;
  Inverse : list float → nat → option (list float);
  Det : list float → nat → float
}.

(** [DenseMatrix.Scale(f)] multiplies every element by [f]. *)
Definition Scale (elements : list float) (f : float) : list float :=
  map (fun v => (v * f)%float) elements.

(** The conversion [float64(n)] of an [int]. *)
Definition float64 (n : Z) : float :=
  if n =? - 2 ^ 63 then (- 9223372036854775808)%float
  else if n <? 0 then (- of_uint63 (Uint63.of_Z (- n)))%float
  else of_uint63 (Uint63.of_Z n).

(** The constant [2.*math.Pi], as a float64. *)
Definition two_pi : float := 0x1.921fb54442d18p+2%float.

Section Trainer.
Context `{Imports}.

(** [GaussianClassifier.SetPrior] *)
Definition SetPrior (gc : GaussianClassifier) (priors : list float)
  : go GaussianClassifier :=
  let logPrior :=
    match LogPrior gc with
    | None => replicate (length priors) 0%float
    | Some logPrior => logPrior
    end in
  logPrior <- for_each (seq 0 (length priors)) (fun i logPrior =>
                p <- at_ priors i ;;
                update logPrior i (fun _ => math_Log p)) logPrior ;;
  Ret {| Means := Means gc; Precs := Precs gc; LogCoefs := LogCoefs gc;
         LogPrior := Some logPrior |}.

(** [for k := range x { mean[k] += x[k] }] *)
Definition add_feature (x mean : list float) : go (list float) :=
  for_each (seq 0 (length x)) (fun k mean =>
    xk <- at_ x k ;;
    update mean k (fun m => (m + xk)%float)) mean.

(** The first pass over the features of [lbl]; the state is [(x, mean)]. *)
Definition sum_features (lfs : LabeledFeatureSet) (lbl : nat) (cnt : Z)
    (x mean : list float) : go (list float * list float) :=
  for_each (seq 0 (Z.to_nat cnt)) (fun i s =>
    let x := fetch lfs lbl i s.1 in
    mean <- add_feature x s.2 ;;
    Ret (x, mean)) (x, mean).

(** [for k := 0; k < dim; k++ { for l := k; l < dim; l++ {
      sigma[k*dim+l] += (x[k] - mean[k]) * (x[l] - mean[l]) } }] *)
Definition add_products (dim : nat) (x mean sigma : list float)
  : go (list float) :=
  for_each (seq 0 dim) (fun k sigma =>
    for_each (seq k (dim - k)) (fun l sigma =>
      xk <- at_ x k ;;
      mk <- at_ mean k ;;
      xl <- at_ x l ;;
      ml <- at_ mean l ;;
      update sigma (k * dim + l)%nat
        (fun v => (v + (xk - mk) * (xl - ml))%float)) sigma) sigma.

(** The second pass; the state is [(x, sigma)]. *)
Definition sum_products (lfs : LabeledFeatureSet) (lbl : nat) (cnt : Z)
    (dim : nat) (mean x sigma : list float)
  : go (list float * list float) :=
  for_each (seq 0 (Z.to_nat cnt)) (fun i s =>
    let x := fetch lfs lbl i s.1 in
    sigma <- add_products dim x mean s.2 ;;
    Ret (x, sigma)) (x, sigma).

(** [for k := 0; k < dim; k++ { for l := 0; l < k; l++ {
      sigma[k*dim+l] = sigma[l*dim+k] } }] *)
Definition mirror (dim : nat) (sigma : list float) : go (list float) :=
  for_each (seq 0 dim) (fun k sigma =>
    for_each (seq 0 k) (fun l sigma =>
      v <- at_ sigma (l * dim + k)%nat ;;
      update sigma (k * dim + l)%nat (fun _ => v)) sigma) sigma.

(** Lines 118-154 of [GaussianTrain]: the mean of label [lbl], and the matrix
    handed to [matrix.MakeDenseMatrix]; the result is [(mean, x, sigma)]. *)
Definition estimate (lfs : LabeledFeatureSet) (lbl : nat)
    (x sigma : list float) : go (list float * list float * list float) :=
  let dim := Dim lfs in
  mean <- make dim 0%float ;;
  let cnt := FeatureCount lfs (Z.of_nat lbl) in
  xm <- sum_features lfs lbl cnt x mean ;;
  let x := xm.1 in
  let mean := map (fun m => (m / float64 cnt)%float) xm.2 in
  let sigma := map (fun _ => 0%float) sigma in
  xs <- sum_products lfs lbl cnt (Z.to_nat dim) mean x sigma ;;
  let x := xs.1 in
  let sigma :=
    if 1 <? cnt then map (fun v => (v / float64 (cnt - 1))%float) xs.2
    else xs.2 in
  sigma <- mirror (Z.to_nat dim) sigma ;;
  Ret (mean, x, sigma).

(** The loop of [GaussianTrain] over the labels; [None] is the [nil] it
    returns when an inversion fails. *)
Fixpoint train_labels (lfs : LabeledFeatureSet) (lbls : list nat)
    (clsfr : GaussianClassifier) (x sigma : list float)
  : go (option GaussianClassifier) :=
  match lbls with
  | [] => Ret (Some clsfr)
  | lbl :: rest =>
      e <- estimate lfs lbl x sigma ;;
      let mean := e.1.1 in
      let x := e.1.2 in
      let sigma := e.2 in
      let dim := Z.to_nat (Dim lfs) in
      match Inverse sigma dim with
      | None => Ret None
      | Some inv =>
          let inv := Scale inv (-0.5)%float in
          let det := Det sigma dim in
          let logCoef :=
            (-0.5 * (math_Log two_pi * float64 (Dim lfs) + math_Log det))%float in
          train_labels lfs rest
            {| Means := <[lbl := mean]> (Means clsfr);
               Precs := <[lbl := inv]> (Precs clsfr);
               LogCoefs := <[lbl := logCoef]> (LogCoefs clsfr);
               LogPrior := LogPrior clsfr |}
            x sigma
      end
  end.

(** [GaussianTrain] *)
Definition GaussianTrain (lfs : LabeledFeatureSet)
  : go (option GaussianClassifier) :=
  let lblCnt := LabelCount lfs in
  let dim := Dim lfs in
  means <- make lblCnt [] ;;
  precs <- make lblCnt [] ;;
  logCoefs <- make lblCnt 0%float ;;
  let clsfr := {| Means := means; Precs := precs; LogCoefs := logCoefs;
                  LogPrior := None |} in
  x <- make dim 0%float ;;
  sigma <- make (dim * dim) 0%float ;;
  train_labels lfs (seq 0 (length (Means clsfr))) clsfr x sigma.

End Trainer.

(** ** float64 classes *)

Module Float64.

Definition is_nan (a : float) : bool :=
  match Prim2SF a with S754_nan => true | _ => false end.

(** Neither NaN nor an infinity. *)
Definition is_finite (a : float) : bool :=
  match Prim2SF a with S754_zero _ | S754_finite _ _ _ => true | _ => false end.

(** The binary64 number 1. *)
Definition SF_one : spec_float := S754_finite false 4503599627370496 (-52).

End Float64.

(** ** Rows, columns and triangles *)

(** The [dim] x [dim] matrix with entries [f k l], as the row-major slice the
    program keeps it in. *)
Definition tabulate (dim : nat) (f : nat → nat → float) : list float :=
  map (fun j => f (j / dim)%nat (j mod dim)%nat) (seq 0 (dim * dim)).

(** The row-major position of the entry [p]. *)
Definition flat (d : nat) (p : nat * nat) : nat := (p.1 * d + p.2)%nat.

(** The counters of the upper triangle, [k <= l < dim], in loop order. *)
Definition upper (d : nat) : list (nat * nat) :=
  k ← seq 0 d; pair k <$> seq k (d - k).

(** The counters of the strict lower triangle, [l < k < dim]. *)
Definition lower (d : nat) : list (nat * nat) :=
  k ← seq 0 d; pair k <$> seq 0 k.

(** All the pairs of counters [k, l < d], row by row. *)
Definition square (d : nat) : list (nat * nat) :=
  k ← seq 0 d; pair k <$> seq 0 d.

(** ** The statistics of a label

    The quantities the specification names, written from its words: sums
    are accumulated from 0 in the order of the features. *)

Definition fsum (term : nat → float) (n : nat) : float :=
  fold_left (fun acc i => (acc + term i)%float) (seq 0 n) 0%float.

(** Component [k] of the [i]-th feature of [lbl]. *)
Definition feature (lfs : LabeledFeatureSet) (lbl i k : nat) : float :=
  FetchFeature lfs (Z.of_nat lbl) (Z.of_nat i) k.

(** The number of features the two passes visit. *)
Definition samples (lfs : LabeledFeatureSet) (lbl : nat) : nat :=
  Z.to_nat (FeatureCount lfs (Z.of_nat lbl)).

(** The arithmetic mean: the sum of the features over their number. *)
Definition sample_mean (lfs : LabeledFeatureSet) (lbl k : nat) : float :=
  (fsum (fun i => feature lfs lbl i k) (samples lfs lbl)
   / float64 (FeatureCount lfs (Z.of_nat lbl)))%float.

(** The sum of the products of deviations of components [k] and [l]. *)
Definition deviation_products (lfs : LabeledFeatureSet) (lbl k l : nat) : float :=
  fsum (fun i => ((feature lfs lbl i k - sample_mean lfs lbl k)
                  * (feature lfs lbl i l - sample_mean lfs lbl l))%float)
       (samples lfs lbl).

(** The sample covariance of components [k <= l]: divisor [cnt - 1] when
    [cnt > 1], the raw sum otherwise. *)
Definition sample_cov (lfs : LabeledFeatureSet) (lbl k l : nat) : float :=
  let cnt := FeatureCount lfs (Z.of_nat lbl) in
  if 1 <? cnt
  then (deviation_products lfs lbl k l / float64 (cnt - 1))%float
  else deviation_products lfs lbl k l.

(** The covariance matrix: the upper triangle, mirrored. *)
Definition sample_covariance (lfs : LabeledFeatureSet) (lbl : nat) : list float :=
  tabulate (Z.to_nat (Dim lfs))
    (fun k l => sample_cov lfs lbl (k `min` l) (k `max` l)).

Definition sample_means (lfs : LabeledFeatureSet) (lbl : nat) : list float :=
  map (sample_mean lfs lbl) (seq 0 (Z.to_nat (Dim lfs))).

(** ** The result of scoring and of classification *)

(** The specification's [logCoef + (x - mean)^T . precision . (x - mean)]:
    the products [(x_k - mean_k) * (x_l - mean_l) * precision_kl], added to
    the log-coefficient row by row. *)
Definition log_density (logCoef : float) (mean prec x : list float) : float :=
  let d := length mean in
  let v k := (nth k x 0 - nth k mean 0)%float in
  fold_left
    (fun acc p => (acc + v p.1 * v p.2 * nth (p.1 * d + p.2) prec 0)%float)
    (square d) logCoef.

(** What the loop of [Classify] holds after [n] labels whose scores are
    [score 0 .. score (n-1)]. *)
Definition best_of (score : nat → float) (n r : nat) : Prop :=
  (r < n)%nat ∧
  (∀ j, (j < n)%nat → (score r <? score j)%float = false) ∧
  (∀ j, (j < r)%nat → (score r <=? score j)%float = false) ∧
  (r = O ∨ ∃ b, (b < r)%nat ∧ (score b <? score r)%float = true).

(** The score [Classify] compares for a label, when there is one. *)
Definition score_of (gc : GaussianClassifier) (x : list float) (j : nat) : float :=
  match LogPosterior gc (Z.of_nat j) x with
  | Ret v => v
  | Panic => 0%float
  end.

(** The model with the log-prior array [logPrior]. *)
Definition with_prior (gc : GaussianClassifier) (logPrior : list float)
  : GaussianClassifier :=
  {| Means := Means gc; Precs := Precs gc; LogCoefs := LogCoefs gc;
     LogPrior := Some logPrior |}.

(** ** The result of training *)

Section Fitting.
Context `{Imports}.

(** What [GaussianTrain] stores for a label whose covariance has the
    inverse [inv]. *)
Definition precision_of (inv : list float) : list float :=
  map (fun v => (v * -0.5)%float) inv.

Definition logCoef_of (lfs : LabeledFeatureSet) (lbl : nat) : float :=
  (-0.5 * (math_Log two_pi * float64 (Dim lfs)
           + math_Log (Det (sample_covariance lfs lbl) (Z.to_nat (Dim lfs)))))%float.

(** The labels fitted one after the other; [None] as soon as an inversion
    fails. *)
Fixpoint fit_labels (lfs : LabeledFeatureSet) (lbls : list nat)
    (clsfr : GaussianClassifier) : option GaussianClassifier :=
  match lbls with
  | [] => Some clsfr
  | lbl :: rest =>
      match Inverse (sample_covariance lfs lbl) (Z.to_nat (Dim lfs)) with
      | None => None
      | Some inv =>
          fit_labels lfs rest
            {| Means := <[lbl := sample_means lfs lbl]> (Means clsfr);
               Precs := <[lbl := precision_of inv]> (Precs clsfr);
               LogCoefs := <[lbl := logCoef_of lfs lbl]> (LogCoefs clsfr);
               LogPrior := LogPrior clsfr |}
      end
  end.

(** The empty classifier [GaussianTrain] starts from. *)
Definition blank (lblCnt : Z) : GaussianClassifier :=
  {| Means := replicate (Z.to_nat lblCnt) [];
     Precs := replicate (Z.to_nat lblCnt) [];
     LogCoefs := replicate (Z.to_nat lblCnt) 0%float;
     LogPrior := None |}.

(** The fields of a fitted classifier, label by label. *)
Definition fitted (lfs : LabeledFeatureSet) (gc : GaussianClassifier)
    (lbl : nat) : Prop :=
  Means gc !! lbl = Some (sample_means lfs lbl) ∧
  ∃ inv, Inverse (sample_covariance lfs lbl) (Z.to_nat (Dim lfs)) = Some inv ∧
         Precs gc !! lbl = Some (precision_of inv) ∧
         LogCoefs gc !! lbl = Some (logCoef_of lfs lbl).

End Fitting.

(** ** Models and feature sources for examples *)

(** A model of dimension 1 with two labels of unit variance, means 0 and 2. *)
Definition unit_model : GaussianClassifier :=
  {| Means := [[0%float]; [2%float]];
     Precs := [[(-0.5)%float]; [(-0.5)%float]];
     LogCoefs := [(-1)%float; (-1)%float];
     LogPrior := None |}.

(** Imports to run the trainer on features of dimension 1: the inverse of
    the matrix [[v]] is [[1/v]], an error when [v] is zero, its determinant
    is [v]; [v - 1] stands for the logarithm, which binary64 arithmetic alone
    does not give. *)
Definition scalar_imports : Imports :=
  {| math_Log := fun v => (v - 1)%float;
     Inverse := fun s _ =>
       match s with
       | [v] => if (v =? 0)%float then None else Some [(1 / v)%float]
       | _ => None
       end;
     Det := fun s _ => match s with [v] => v | _ => 1%float end |}.

(** A feature source of dimension 1 from the features of its labels. *)
Definition source (features : list (list float)) : LabeledFeatureSet :=
  {| Dim := 1;
     LabelCount := Z.of_nat (length features);
     FeatureCount := fun label =>
       Z.of_nat (length (nth (Z.to_nat label) features []));
     FetchFeature := fun label index _ =>
       nth (Z.to_nat index) (nth (Z.to_nat label) features []) 0%float |}.

(** Two labels around -1 and 1, three features each. *)
Definition scenario : LabeledFeatureSet :=
  source [[(-1)%float; (-1.5)%float; (-0.5)%float];
          [1%float; 1.5%float; 0.5%float]].

(** The first label has no spread. *)
Definition degenerate : LabeledFeatureSet :=
  source [[(-1)%float; (-1)%float; (-1)%float];
          [1%float; 1.5%float; 0.5%float]].

(** The second label has a single feature. *)
Definition lonely : LabeledFeatureSet :=
  source [[(-1)%float; (-1.5)%float; (-0.5)%float]; [1%float]].

(** The model trained on [scenario]. *)
Definition scenario_model : GaussianClassifier :=
  Eval vm_compute in
    match GaussianTrain (H := scalar_imports) scenario with
    | Ret (Some gc) => gc
    | _ => unit_model
    end.

(** [unit_model] with priors that were not positive. *)
Definition poisoned_model : GaussianClassifier :=
  {| Means := Means unit_model; Precs := Precs unit_model;
     LogCoefs := LogCoefs unit_model; LogPrior := Some [nan; nan] |}.

(** [scenario] with its labels in the other order. *)
Definition swapped : LabeledFeatureSet :=
  source [[1%float; 1.5%float; 0.5%float];
          [(-1)%float; (-1.5)%float; (-0.5)%float]].

(** The model trained on [swapped]. *)
Definition swapped_model : GaussianClassifier :=
  Eval vm_compute in
    match GaussianTrain (H := scalar_imports) swapped with
    | Ret (Some gc) => gc
    | _ => unit_model
    end.

(** The first label has no feature. *)
Definition vacant : LabeledFeatureSet := source [[]; [1%float]].

(** A model of dimension 2 whose precision has one element. *)
Definition short_precision_model : GaussianClassifier :=
  {| Means := [[0%float; 0%float]];
     Precs := [[(-0.5)%float]];
     LogCoefs := [0%float];
     LogPrior := None |}.

(** * Properties *)

(** ** float64 comparisons

    [<] and [<=] of float64 are the kernel's [ltb] and [leb]; their order
    properties come from the binary64 specification ([SFcompare]). *)

Module Float64Facts.
Import Float64.

Local Ltac cmp_cases :=
  repeat match goal with
  | |- context [Z.compare ?a ?b] => destruct (Z.compare_spec a b)
  | H : context [Z.compare ?a ?b] |- _ => destruct (Z.compare_spec a b)
  | |- context [Pos.compare ?a ?b] => destruct (Pos.compare_spec a b)
  | H : context [Pos.compare ?a ?b] |- _ => destruct (Pos.compare_spec a b)
  end.

Local Ltac sf_order :=
  unfold SFltb, SFleb, SFcompare;
  change (Pos.compare_cont Eq) with Pos.compare;
  intros;
  repeat match goal with
  | s : spec_float |- _ => destruct s
  | b : bool |- _ => destruct b
  end;
  simpl in *; try congruence;
  cmp_cases; simpl in *; subst; try congruence; try lia.

Lemma SFltb_irrefl x : SFltb x x = false.
Proof. revert x. sf_order. Qed.

Lemma SFltb_trans x y z :
  SFltb x y = true → SFltb y z = true → SFltb x z = true.
Proof. revert x y z. sf_order. Qed.

Lemma SFltb_leb_trans x y z :
  SFltb x y = true → SFleb y z = true → SFltb x z = true.
Proof. revert x y z. sf_order. Qed.

Lemma SFleb_of_not_ltb x y :
  x ≠ S754_nan → y ≠ S754_nan → SFltb x y = false → SFleb y x = true.
Proof. revert x y. sf_order. Qed.

Lemma ltb_irrefl a : (a <? a)%float = false.
Proof. rewrite ltb_spec. apply SFltb_irrefl. Qed.

Lemma ltb_trans a b c :
  (a <? b)%float = true → (b <? c)%float = true → (a <? c)%float = true.
Proof. rewrite !ltb_spec. apply SFltb_trans. Qed.

Lemma ltb_leb_trans a b c :
  (a <? b)%float = true → (b <=? c)%float = true → (a <? c)%float = true.
Proof. rewrite !ltb_spec, leb_spec. apply SFltb_leb_trans. Qed.

Lemma leb_of_not_ltb a b :
  is_nan a = false → is_nan b = false →
  (a <? b)%float = false → (b <=? a)%float = true.
Proof.
  unfold is_nan. rewrite ltb_spec, leb_spec. intros Ha Hb.
  apply SFleb_of_not_ltb; intros E; rewrite E in *; discriminate.
Qed.

Lemma ltb_nan_r a b : is_nan b = true → (a <? b)%float = false.
Proof.
  unfold is_nan. rewrite ltb_spec. unfold SFltb, SFcompare.
  destruct (Prim2SF b); try discriminate. by destruct (Prim2SF a).
Qed.

Lemma div_eucl_eq a b : Z.div_eucl a b = (a / b, a mod b).
Proof. unfold Z.div, Z.modulo. destruct (Z.div_eucl a b). reflexivity. Qed.

Lemma canonical_cases m e :
  bounded prec emax m e = true ->
  e <= 971 /\ ((Z.pos (digits2_pos m) = 53 /\ -1074 <= e) \/ (e = -1074 /\ Z.pos (digits2_pos m) <= 53)).
Proof.
  unfold bounded, canonical_mantissa, fexp, emin.
  change prec with 53. change emax with 1024.
  intros H. apply andb_prop in H as [H1 H2].
  apply Z.eqb_eq in H1. apply Z.leb_le in H2. lia.
Qed.

(** Division by 1 is exact. *)
Lemma SFdiv_one s m e :
  bounded prec emax m e = true ->
  SFdiv prec emax (S754_finite s m e) SF_one = S754_finite s m e.
Proof.
  intros Hb. pose proof (canonical_cases m e Hb) as [Hmax Hc].
  unfold SFdiv, SF_one, SFdiv_core_binary.
  change (Zdigits2 (Z.pos 4503599627370496)) with 53.
  change (Zdigits2 (Z.pos m)) with (Z.pos (digits2_pos m)).
  change IntDef.Z.min with Z.min. change IntDef.Z.shiftl with Z.shiftl.
  change IntDef.Z.div_eucl with Z.div_eucl.
  assert (He' : exists c, (c = 0 \/ c = 1) /\
     Z.min (fexp prec emax (Z.pos (digits2_pos m) + e - (53 + -52))) (e - -52) = e - c
     /\ fexp prec emax (Z.pos (digits2_pos m) + c + (e - c)) = e
     /\ (c = 1 -> -1074 < e)).
  { unfold fexp, emin. change prec with 53. change emax with 1024.
    destruct (Z.eq_dec e (-1074)).
    - exists 0. lia.
    - exists 1. lia. }
  destruct He' as (c & Hc01 & -> & Hfexp & Hc1).
  replace (e - -52 - (e - c)) with (52 + c) by lia.
  assert (Hq : match 52 + c with
       | 0 => Z.pos m
       | Z.pos _ => Z.shiftl (Z.pos m) (52 + c)
       | Z.neg _ => 0
       end = Z.pos m * 2 ^ c * 4503599627370496).
  { destruct Hc01 as [-> | ->].
    - change (52 + 0) with 52. cbv beta iota.
      rewrite Z.shiftl_mul_pow2 by lia. change (2 ^ 52) with 4503599627370496.
      change (2 ^ 0) with 1. lia.
    - change (52 + 1) with 53. cbv beta iota.
      rewrite Z.shiftl_mul_pow2 by lia. change (2 ^ 53) with 9007199254740992.
      change (2 ^ 1) with 2. lia. }
  rewrite Hq, div_eucl_eq, Z_div_mult, Z_mod_mult by lia.
  change (new_location 4503599627370496 0) with loc_Exact.
  clear Hq. unfold binary_round_aux.
  assert (Hshr0 : shr_fexp prec emax (Z.pos m) e loc_Exact
                  = ({| shr_m := Z.pos m; shr_r := false; shr_s := false |}, e)).
  { unfold shr_fexp. change (Zdigits2 (Z.pos m)) with (Z.pos (digits2_pos m)).
    replace (fexp prec emax (Z.pos (digits2_pos m) + e) - e) with 0; [reflexivity|].
    destruct Hc01 as [-> | ->].
    - rewrite Z.add_0_r, Z.sub_0_r in Hfexp. lia.
    - replace (Z.pos (digits2_pos m) + 1 + (e - 1)) with (Z.pos (digits2_pos m) + e) in Hfexp by lia. lia. }
  assert (Hshr : shr_fexp prec emax (Z.pos m * 2 ^ c) (e - c) loc_Exact
                 = ({| shr_m := Z.pos m; shr_r := false; shr_s := false |}, e)).
  { destruct Hc01 as [-> | ->].
    - rewrite Z.mul_1_r, Z.sub_0_r. exact Hshr0.
    - replace (Z.pos m * 2 ^ 1) with (Z.pos m~0) by lia.
      unfold shr_fexp. change (Zdigits2 (Z.pos m~0)) with (Z.pos (Pos.succ (digits2_pos m))).
      rewrite Pos2Z.inj_succ.
      replace (Z.succ (Z.pos (digits2_pos m)) + (e - 1)) with (Z.pos (digits2_pos m) + 1 + (e - 1)) by lia.
      rewrite Hfexp. replace (e - (e - 1)) with 1 by lia.
      unfold shr. cbn. f_equal. lia. }
  rewrite Hshr. cbn [shr_m loc_of_shr_record round_nearest_even]. rewrite Hshr0.
  cbn [shr_m]. change prec with 53. change emax with 1024.
  rewrite (proj2 (Z.leb_le e (1024 - 53))) by lia.
  destruct s; reflexivity.
Qed.

Lemma Prim2SF_one : Prim2SF 1%float = SF_one.
Proof. vm_compute. reflexivity. Qed.

Lemma SFsub_diag s m e :
  SFsub prec emax (S754_finite s m e) (S754_finite s m e) = S754_zero false.
Proof.
  unfold SFsub. change IntDef.Z.min with Z.min. rewrite Z.min_id.
  rewrite Z.sub_diag. reflexivity.
Qed.

(** A single finite sample deviates from its own mean by a zero. *)
Lemma centered_single x :
  is_finite x = true ->
  exists s, Prim2SF (x - (0 + x) / 1)%float = S754_zero s.
Proof.
  unfold is_finite. intros Hx.
  rewrite sub_spec, div_spec, add_spec, Prim2SF_one.
  pose proof (Prim2SF_valid x) as Hv.
  change (Prim2SF 0%float) with (S754_zero false).
  unfold SF64sub, SF64div, SF64add.
  destruct (Prim2SF x) as [s| | |s m e]; try discriminate.
  - exists s. destruct s; reflexivity.
  - exists false. cbn [SFadd]. rewrite SFdiv_one by exact Hv. apply SFsub_diag.
Qed.

Lemma single_sample_deviation x y :
  is_finite x = true -> is_finite y = true ->
  (0 + (x - (0 + x) / 1) * (y - (0 + y) / 1))%float = 0%float.
Proof.
  intros Hx Hy. apply Prim2SF_inj.
  destruct (centered_single x Hx) as [sx Ex], (centered_single y Hy) as [sy Ey].
  rewrite add_spec, mul_spec, Ex, Ey.
  change (Prim2SF 0%float) with (S754_zero false).
  destruct sx, sy; reflexivity.
Qed.

Lemma SFleb_refl x : x ≠ S754_nan → SFleb x x = true.
Proof. revert x. sf_order. Qed.

(** Only NaN is not [<=] itself. *)
Lemma leb_refl a : is_nan a = false → (a <=? a)%float = true.
Proof.
  unfold is_nan. rewrite leb_spec. intros Ha.
  apply SFleb_refl. intros E. rewrite E in Ha. discriminate.
Qed.

End Float64Facts.

(** ** Loops *)

Lemma for_each_app {I S} (idx1 idx2 : list I) (body : I → S → go S) s :
  for_each (idx1 ++ idx2) body s
  = Go.bind (for_each idx1 body s) (for_each idx2 body).
Proof.
  revert s. induction idx1 as [|i idx1 IH]; intros s; simpl; [done|].
  destruct (body i s); simpl; auto.
Qed.

Lemma for_each_snoc {I S} (idx : list I) i (body : I → S → go S) s :
  for_each (idx ++ [i]) body s = Go.bind (for_each idx body s) (body i).
Proof.
  rewrite for_each_app. destruct (for_each idx body s); simpl; [|done].
  by destruct (body i a).
Qed.

Lemma for_each_ext {I S} (idx : list I) (body body' : I → S → go S) s :
  (∀ i s, i ∈ idx → body i s = body' i s) →
  for_each idx body s = for_each idx body' s.
Proof.
  revert s. induction idx as [|i idx IH]; intros s Hb; simpl; [done|].
  rewrite Hb by left. destruct (body' i s); simpl; [|done].
  apply IH. intros. apply Hb. by right.
Qed.

Lemma for_each_fmap {I J S} (f : I → J) (idx : list I) (body : J → S → go S) s :
  for_each (f <$> idx) body s = for_each idx (fun i => body (f i)) s.
Proof.
  revert s. induction idx as [|i idx IH]; intros s; simpl; [done|].
  destruct (body (f i) s); simpl; auto.
Qed.

(** Two nested loops are one loop over the pairs of counters. *)
Lemma for_each_nested {S} (ks : list nat) (ls : nat → list nat)
    (body : nat → nat → S → go S) s :
  for_each ks (fun k s => for_each (ls k) (body k) s) s
  = for_each (k ← ks; pair k <$> ls k) (fun p => body p.1 p.2) s.
Proof.
  revert s. induction ks as [|k ks IH]; intros s; [done|].
  cbn [for_each mbind list_bind]. rewrite for_each_app, for_each_fmap. simpl.
  destruct (for_each (ls k) (body k) s); simpl; auto.
Qed.

(** A loop of in-place updates at pairwise distinct positions. *)
Lemma for_each_update {I A} (pos : I → nat) (g : I → A → A) (idx : list I)
    (s : list A) :
  NoDup (pos <$> idx) →
  (∀ i, i ∈ idx → (pos i < length s)%nat) →
  ∃ s', for_each idx (fun i s => update s (pos i) (g i)) s = Ret s' ∧
        length s' = length s ∧
        (∀ i, i ∈ idx → s' !! pos i = g i <$> s !! pos i) ∧
        (∀ j, j ∉ pos <$> idx → s' !! j = s !! j).
Proof.
  revert s. induction idx as [|i idx IH]; intros s Hnd Hlen.
  { exists s. simpl. repeat split; auto. intros i Hi. by apply elem_of_nil in Hi. }
  rewrite fmap_cons in Hnd. apply NoDup_cons in Hnd as [Hi Hnd].
  destruct (lookup_lt_is_Some_2 s (pos i)) as [a Ha]; [apply Hlen; left|].
  simpl. unfold update at 1. rewrite Ha. simpl.
  destruct (IH (<[pos i := g i a]> s) Hnd) as (s' & -> & Hl & Hin & Hout).
  { intros i' Hi'. rewrite length_insert. apply Hlen. by right. }
  exists s'. split; [done|]. rewrite length_insert in Hl. split; [done|]. split.
  - intros i' Hi'. apply elem_of_cons in Hi' as [->|Hi'].
    + rewrite Hout by done. rewrite list_lookup_insert_eq, Ha; [done|].
      by apply lookup_lt_Some in Ha.
    + rewrite Hin by done. rewrite list_lookup_insert_ne; [done|].
      intros E. apply Hi. rewrite E. by apply list_elem_of_fmap_2.
  - intros j Hj. rewrite ?fmap_cons in Hj. apply not_elem_of_cons in Hj as [Hne Hj].
    rewrite Hout by done. by rewrite list_lookup_insert_ne.
Qed.

(** A loop of in-place copies from positions that are never written. *)
Lemma for_each_copy {I A} (src pos : I → nat) (idx : list I) (s : list A) :
  NoDup (pos <$> idx) →
  (∀ i, i ∈ idx → (pos i < length s)%nat ∧ (src i < length s)%nat) →
  (∀ i i', i ∈ idx → i' ∈ idx → src i ≠ pos i') →
  ∃ s', for_each idx (fun i s =>
            v <- at_ s (src i) ;; update s (pos i) (fun _ => v)) s = Ret s' ∧
        length s' = length s ∧
        (∀ i, i ∈ idx → s' !! pos i = s !! src i) ∧
        (∀ j, j ∉ pos <$> idx → s' !! j = s !! j).
Proof.
  revert s. induction idx as [|i idx IH]; intros s Hnd Hlen Hsrc.
  { exists s. simpl. repeat split; auto. intros i Hi. by apply elem_of_nil in Hi. }
  rewrite fmap_cons in Hnd. apply NoDup_cons in Hnd as [Hi Hnd].
  destruct (Hlen i) as [Hp Hs]; [left|].
  destruct (lookup_lt_is_Some_2 s (pos i) Hp) as [a Ha].
  destruct (lookup_lt_is_Some_2 s (src i) Hs) as [v Hv].
  simpl. unfold at_ at 1, update at 1. rewrite Hv. simpl. rewrite Ha. simpl.
  destruct (IH (<[pos i := v]> s) Hnd) as (s' & -> & Hl & Hin & Hout).
  { intros i' Hi'. rewrite length_insert. apply Hlen. by right. }
  { intros i1 i2 H1 H2. apply Hsrc; by right. }
  exists s'. split; [done|]. rewrite length_insert in Hl. split; [done|]. split.
  - intros i' Hi'. apply elem_of_cons in Hi' as [->|Hi'].
    + rewrite Hout by done. by rewrite list_lookup_insert_eq.
    + rewrite Hin by done. rewrite list_lookup_insert_ne; [done|].
      intros E. eapply Hsrc; [..|symmetry; exact E]; [by right|by left].
  - intros j Hj. rewrite ?fmap_cons in Hj. apply not_elem_of_cons in Hj as [Hne Hj].
    rewrite Hout by done. by rewrite list_lookup_insert_ne.
Qed.

(** ** Row-major matrices *)

Lemma flat_div (d k l : nat) : (l < d)%nat → ((k * d + l) / d = k)%nat.
Proof. intros. symmetry. apply Nat.div_unique with l; lia. Qed.

Lemma flat_mod (d k l : nat) : (l < d)%nat → ((k * d + l) mod d = l)%nat.
Proof. intros. symmetry. apply Nat.mod_unique with k; lia. Qed.

Lemma flat_lt (d k l : nat) : (k < d)%nat → (l < d)%nat → (k * d + l < d * d)%nat.
Proof. intros. nia. Qed.

Lemma flat_inj (d k l k' l' : nat) :
  (l < d)%nat → (l' < d)%nat → (k * d + l = k' * d + l')%nat → k = k' ∧ l = l'.
Proof.
  intros Hl Hl' E. split.
  - rewrite <- (flat_div d k l Hl), E. by apply flat_div.
  - rewrite <- (flat_mod d k l Hl), E. by apply flat_mod.
Qed.

Lemma length_tabulate d f : length (tabulate d f) = (d * d)%nat.
Proof. unfold tabulate. by rewrite length_map, length_seq. Qed.

Lemma tabulate_lookup d f k l :
  (k < d)%nat → (l < d)%nat → tabulate d f !! (k * d + l)%nat = Some (f k l).
Proof.
  intros Hk Hl. unfold tabulate. rewrite list_lookup_fmap.
  rewrite lookup_seq_lt by (by apply flat_lt). simpl.
  by rewrite flat_div, flat_mod.
Qed.

Lemma tabulate_eq d f (s : list float) :
  length s = (d * d)%nat →
  (∀ k l, (k < d)%nat → (l < d)%nat → s !! (k * d + l)%nat = Some (f k l)) →
  s = tabulate d f.
Proof.
  intros Hlen Hs. apply list_eq. intros j.
  destruct (decide (j < d * d)%nat) as [Hj|Hj].
  - assert (Hd : (0 < d)%nat) by (destruct d; lia).
    assert (Hm : (j mod d < d)%nat) by (apply Nat.mod_upper_bound; lia).
    assert (Hq : (j / d < d)%nat) by (apply Nat.Div0.div_lt_upper_bound; lia).
    assert (E : j = (j / d * d + j mod d)%nat).
    { rewrite (Nat.div_mod_eq j d) at 1. lia. }
    rewrite E. rewrite Hs, tabulate_lookup; done.
  - rewrite !lookup_ge_None_2; [done|rewrite length_tabulate; lia|lia].
Qed.

Lemma tabulate_ext d f g :
  (∀ k l, (k < d)%nat → (l < d)%nat → f k l = g k l) →
  tabulate d f = tabulate d g.
Proof.
  intros E. apply tabulate_eq; [apply length_tabulate|].
  intros k l Hk Hl. rewrite tabulate_lookup by done. f_equal. by apply E.
Qed.

Lemma map_tabulate d f (h : float → float) :
  map h (tabulate d f) = tabulate d (fun k l => h (f k l)).
Proof. unfold tabulate. by rewrite map_map. Qed.

Lemma tabulate_const d (s : list float) v :
  length s = (d * d)%nat → map (fun _ => v) s = tabulate d (fun _ _ => v).
Proof.
  intros Hlen. apply tabulate_eq; [by rewrite length_map|].
  intros k l Hk Hl. rewrite list_lookup_fmap.
  destruct (lookup_lt_is_Some_2 s (k * d + l)%nat) as [a ->]; [|done].
  rewrite Hlen. by apply flat_lt.
Qed.

Lemma fsum_S term n : fsum term (S n) = (fsum term n + term n)%float.
Proof. unfold fsum. by rewrite seq_S, fold_left_app. Qed.

(** ** The two passes of the trainer *)

Lemma at_map {A} (f : nat → A) d k :
  (k < d)%nat → at_ (map f (seq 0 d)) k = Ret (f k).
Proof.
  intros Hk. unfold at_. rewrite list_lookup_fmap, lookup_seq_lt by done. done.
Qed.

Lemma length_fetch lfs lbl i x : length (fetch lfs lbl i x) = length x.
Proof. unfold fetch. by rewrite length_map, length_seq. Qed.

Lemma fetch_map lfs lbl i x :
  fetch lfs lbl i x = map (feature lfs lbl i) (seq 0 (length x)).
Proof. done. Qed.

Lemma add_feature_spec d (xf mf : nat → float) :
  add_feature (map xf (seq 0 d)) (map mf (seq 0 d))
  = Ret (map (fun k => (mf k + xf k)%float) (seq 0 d)).
Proof.
  unfold add_feature. rewrite length_map, length_seq.
  rewrite (for_each_ext _ _
    (fun k mean => update mean (id k) ((fun k m => (m + xf k)%float) k))).
  2:{ intros k s Hk. apply elem_of_seq in Hk. rewrite at_map by lia. done. }
  destruct (for_each_update id (fun k m => (m + xf k)%float) (seq 0 d)
              (map mf (seq 0 d))) as (s' & -> & Hl & Hin & _).
  { rewrite list_fmap_id. apply NoDup_seq. }
  { intros i Hi. apply elem_of_seq in Hi. rewrite length_map, length_seq.
    unfold id. lia. }
  f_equal. apply list_eq. intros k.
  destruct (decide (k < d)%nat) as [Hk|Hk].
  - specialize (Hin k). unfold id in Hin. rewrite Hin by (apply elem_of_seq; lia).
    by rewrite !list_lookup_fmap, lookup_seq_lt.
  - rewrite !lookup_ge_None_2; [done|rewrite length_map, length_seq; lia|].
    rewrite Hl, length_map, length_seq. lia.
Qed.

Lemma sum_features_loop lfs lbl n d (x : list float) :
  length x = d →
  ∃ x', for_each (seq 0 n) (fun i s =>
            mean <- add_feature (fetch lfs lbl i s.1) s.2 ;;
            Ret (fetch lfs lbl i s.1, mean))
          (x, replicate d 0%float)
        = Ret (x', map (fun k => fsum (fun i => feature lfs lbl i k) n) (seq 0 d))
        ∧ length x' = d.
Proof.
  intros Hx. induction n as [|n (x' & IH & Hx')].
  - exists x. split; [|done]. simpl. do 2 f_equal.
    apply list_eq. intros k. rewrite list_lookup_fmap.
    destruct (decide (k < d)%nat).
    + by rewrite lookup_replicate_2, lookup_seq_lt.
    + rewrite !lookup_ge_None_2; [done|rewrite length_seq; lia|].
      rewrite length_replicate. lia.
  - exists (fetch lfs lbl n x'). split; [|by rewrite length_fetch].
    rewrite seq_S, for_each_snoc, IH. simpl.
    rewrite fetch_map, Hx', add_feature_spec. simpl. do 2 f_equal.
    apply map_ext. intros k. by rewrite fsum_S.
Qed.

Lemma elem_of_upper d k l : (k, l) ∈ upper d ↔ (k ≤ l)%nat ∧ (l < d)%nat.
Proof.
  unfold upper. rewrite list_elem_of_bind. split.
  - intros (k' & Hl & Hk). apply list_elem_of_fmap in Hl as (l' & E & Hl).
    inversion E; subst. apply elem_of_seq in Hl, Hk. lia.
  - intros [Hkl Hl]. exists k. split.
    + apply list_elem_of_fmap. exists l. split; [done|]. apply elem_of_seq. lia.
    + apply elem_of_seq. lia.
Qed.

Lemma elem_of_lower d k l : (k, l) ∈ lower d ↔ (l < k)%nat ∧ (k < d)%nat.
Proof.
  unfold lower. rewrite list_elem_of_bind. split.
  - intros (k' & Hl & Hk). apply list_elem_of_fmap in Hl as (l' & E & Hl).
    inversion E; subst. apply elem_of_seq in Hl, Hk. lia.
  - intros [Hkl Hl]. exists k. split.
    + apply list_elem_of_fmap. exists l. split; [done|]. apply elem_of_seq. lia.
    + apply elem_of_seq. lia.
Qed.

Lemma NoDup_pairs (ks : list nat) (ls : nat → list nat) :
  NoDup ks → (∀ k, NoDup (ls k)) → NoDup (k ← ks; pair k <$> ls k).
Proof.
  intros Hks Hls. apply NoDup_bind; [|intros k _|done].
  - intros k1 k2 [k l] _ _ H1 H2.
    apply list_elem_of_fmap in H1 as (? & E1 & _), H2 as (? & E2 & _).
    congruence.
  - apply NoDup_fmap_2; [|done]. intros l1 l2. congruence.
Qed.

Lemma NoDup_flat (d : nat) (ps : list (nat * nat)) :
  NoDup ps → (∀ p, p ∈ ps → (p.2 < d)%nat) → NoDup (flat d <$> ps).
Proof.
  intros Hnd Hps. apply NoDup_fmap_2_strong; [|done].
  intros [k l] [k' l'] Hp Hp' E. apply Hps in Hp, Hp'. simpl in *.
  unfold flat in E. simpl in E. by destruct (flat_inj d k l k' l') as [-> ->].
Qed.

Lemma NoDup_upper d : NoDup (upper d).
Proof. apply NoDup_pairs; [apply NoDup_seq|intros; apply NoDup_seq]. Qed.

Lemma NoDup_lower d : NoDup (lower d).
Proof. apply NoDup_pairs; [apply NoDup_seq|intros; apply NoDup_seq]. Qed.

Lemma add_products_spec d (xf mf : nat → float) (f : nat → nat → float) :
  add_products d (map xf (seq 0 d)) (map mf (seq 0 d)) (tabulate d f)
  = Ret (tabulate d (fun k l =>
           if (k <=? l)%nat
           then (f k l + (xf k - mf k) * (xf l - mf l))%float
           else f k l)).
Proof.
  unfold add_products.
  rewrite (for_each_nested (seq 0 d) (fun k => seq k (d - k))
    (fun k l sigma =>
       xk <- at_ (map xf (seq 0 d)) k ;;
       mk <- at_ (map mf (seq 0 d)) k ;;
       xl <- at_ (map xf (seq 0 d)) l ;;
       ml <- at_ (map mf (seq 0 d)) l ;;
       update sigma (k * d + l)%nat
         (fun v => (v + (xk - mk) * (xl - ml))%float))).
  fold (upper d).
  set (g := fun (p : nat * nat) (v : float) =>
              (v + (xf p.1 - mf p.1) * (xf p.2 - mf p.2))%float).
  rewrite (for_each_ext _ _ (fun p sigma => update sigma (flat d p) (g p))).
  2:{ intros [k l] s Hp. apply elem_of_upper in Hp. simpl.
      rewrite !at_map by lia. done. }
  destruct (for_each_update (flat d) g (upper d) (tabulate d f))
    as (s' & -> & Hl & Hin & Hout).
  { apply NoDup_flat; [apply NoDup_upper|].
    intros [k l] Hp. apply elem_of_upper in Hp. simpl. lia. }
  { intros [k l] Hp. apply elem_of_upper in Hp. rewrite length_tabulate.
    apply flat_lt; simpl; lia. }
  f_equal. apply tabulate_eq; [by rewrite Hl, length_tabulate|].
  intros k l Hk Hl'. destruct (k <=? l)%nat eqn:Hkl.
  - apply Nat.leb_le in Hkl. specialize (Hin (k, l)).
    unfold flat in Hin. simpl in Hin. rewrite Hin by (apply elem_of_upper; lia).
    by rewrite tabulate_lookup.
  - apply Nat.leb_gt in Hkl. rewrite Hout; [by apply tabulate_lookup|].
    intros Hj. apply list_elem_of_fmap in Hj as ([k' l'] & E & Hp).
    apply elem_of_upper in Hp. unfold flat in E. simpl in E.
    destruct (flat_inj d k l k' l') as [-> ->]; [lia..|done|lia].
Qed.

Lemma mirror_spec d (f : nat → nat → float) :
  mirror d (tabulate d f)
  = Ret (tabulate d (fun k l => if (l <? k)%nat then f l k else f k l)).
Proof.
  unfold mirror.
  rewrite (for_each_nested (seq 0 d) (fun k => seq 0 k)
    (fun k l sigma =>
       v <- at_ sigma (l * d + k)%nat ;;
       update sigma (k * d + l)%nat (fun _ => v))).
  fold (lower d).
  destruct (for_each_copy (fun p => flat d (p.2, p.1)) (flat d) (lower d)
              (tabulate d f)) as (s' & Hs' & Hl & Hin & Hout).
  { apply NoDup_flat; [apply NoDup_lower|].
    intros [k l] Hp. apply elem_of_lower in Hp. simpl. lia. }
  { intros [k l] Hp. apply elem_of_lower in Hp. rewrite length_tabulate.
    split; apply flat_lt; simpl; lia. }
  { intros [k l] [k' l'] Hp Hp' E. apply elem_of_lower in Hp, Hp'.
    unfold flat in E. simpl in E.
    destruct (flat_inj d l k k' l') as [-> ->]; [lia..|done|lia]. }
  unfold flat in Hs'. simpl in Hs'. rewrite Hs'.
  f_equal. apply tabulate_eq; [by rewrite Hl, length_tabulate|].
  intros k l Hk Hl'. destruct (l <? k)%nat eqn:Hkl.
  - apply Nat.ltb_lt in Hkl. specialize (Hin (k, l)).
    unfold flat in Hin. simpl in Hin. rewrite Hin by (apply elem_of_lower; lia).
    by rewrite tabulate_lookup.
  - apply Nat.ltb_ge in Hkl. rewrite Hout; [by apply tabulate_lookup|].
    intros Hj. apply list_elem_of_fmap in Hj as ([k' l'] & E & Hp).
    apply elem_of_lower in Hp. unfold flat in E. simpl in E.
    destruct (flat_inj d k l k' l') as [-> ->]; [lia..|done|lia].
Qed.

Lemma sum_products_loop lfs lbl n d (mf : nat → float) (x : list float) :
  length x = d →
  ∃ x', for_each (seq 0 n) (fun i s =>
            sigma <- add_products d (fetch lfs lbl i s.1)
                       (map mf (seq 0 d)) s.2 ;;
            Ret (fetch lfs lbl i s.1, sigma))
          (x, tabulate d (fun _ _ => 0%float))
        = Ret (x', tabulate d (fun k l =>
                 if (k <=? l)%nat
                 then fsum (fun i => ((feature lfs lbl i k - mf k)
                                      * (feature lfs lbl i l - mf l))%float) n
                 else 0%float))
        ∧ length x' = d.
Proof.
  intros Hx. induction n as [|n (x' & IH & Hx')].
  - exists x. split; [|done]. simpl. do 2 f_equal.
    apply tabulate_ext. intros k l _ _. by destruct (k <=? l)%nat.
  - exists (fetch lfs lbl n x'). split; [|by rewrite length_fetch].
    rewrite seq_S, for_each_snoc, IH. simpl.
    rewrite fetch_map, Hx', add_products_spec. simpl. do 2 f_equal.
    apply tabulate_ext. intros k l _ _.
    destruct (k <=? l)%nat; [|done]. by rewrite fsum_S.
Qed.

Lemma make_nonneg {A} (n : Z) (zero : A) :
  0 ≤ n → make n zero = Ret (replicate (Z.to_nat n) zero).
Proof. intros Hn. unfold make. by rewrite (proj2 (Z.ltb_ge n 0)). Qed.

Lemma make_neg {A} (n : Z) (zero : A) : n < 0 → make n zero = Panic.
Proof. intros Hn. unfold make. by rewrite (proj2 (Z.ltb_lt n 0)). Qed.

(** Lines 118-154 compute the mean and the mirrored covariance of the label,
    whatever the buffers [x] and [sigma] held before. *)
Lemma estimate_spec lfs lbl (x sigma : list float) :
  0 ≤ Dim lfs →
  length x = Z.to_nat (Dim lfs) →
  length sigma = (Z.to_nat (Dim lfs) * Z.to_nat (Dim lfs))%nat →
  ∃ x', estimate lfs lbl x sigma
        = Ret (sample_means lfs lbl, x', sample_covariance lfs lbl)
        ∧ length x' = Z.to_nat (Dim lfs).
Proof.
  intros Hdim Hx Hsigma. unfold estimate, sum_features, sum_products.
  rewrite make_nonneg by done. cbn [Go.bind].
  destruct (sum_features_loop lfs lbl
              (Z.to_nat (FeatureCount lfs (Z.of_nat lbl))) _ x Hx)
    as (x1 & -> & Hx1).
  cbn [Go.bind fst snd]. rewrite map_map.
  rewrite (tabulate_const (Z.to_nat (Dim lfs))) by done.
  change (map _ (seq 0 (Z.to_nat (Dim lfs)))) with (sample_means lfs lbl).
  unfold sample_means at 1.
  destruct (sum_products_loop lfs lbl
              (Z.to_nat (FeatureCount lfs (Z.of_nat lbl))) _
              (sample_mean lfs lbl) x1 Hx1) as (x2 & -> & Hx2).
  cbn [Go.bind fst snd]. exists x2. split; [|done].
  assert (Hm : ∀ s, mirror (Z.to_nat (Dim lfs)) s = Ret (sample_covariance lfs lbl)
               → (sigma0 <- mirror (Z.to_nat (Dim lfs)) s ;;
                  Ret (sample_means lfs lbl, x2, sigma0))
                 = Ret (sample_means lfs lbl, x2, sample_covariance lfs lbl)).
  { by intros s ->. }
  apply Hm. unfold sample_covariance, sample_cov.
  fold (samples lfs lbl).
  destruct (1 <? FeatureCount lfs (Z.of_nat lbl)).
  - rewrite map_tabulate, mirror_spec. f_equal. apply tabulate_ext.
    intros k l _ _. unfold deviation_products.
    destruct (l <? k)%nat eqn:E.
    + apply Nat.ltb_lt in E.
      rewrite (proj2 (Nat.leb_le l k)) by lia.
      by rewrite Nat.min_r, Nat.max_l by lia.
    + apply Nat.ltb_ge in E.
      rewrite (proj2 (Nat.leb_le k l)) by lia.
      by rewrite Nat.min_l, Nat.max_r by lia.
  - rewrite mirror_spec. f_equal. apply tabulate_ext.
    intros k l _ _. unfold deviation_products.
    destruct (l <? k)%nat eqn:E.
    + apply Nat.ltb_lt in E.
      rewrite (proj2 (Nat.leb_le l k)) by lia.
      by rewrite Nat.min_r, Nat.max_l by lia.
    + apply Nat.ltb_ge in E.
      rewrite (proj2 (Nat.leb_le k l)) by lia.
      by rewrite Nat.min_l, Nat.max_r by lia.
Qed.

(** ** The loop over the labels *)

Section Training.
Context `{Imports}.

Lemma train_labels_spec lfs lbls clsfr (x sigma : list float) :
  0 ≤ Dim lfs →
  length x = Z.to_nat (Dim lfs) →
  length sigma = (Z.to_nat (Dim lfs) * Z.to_nat (Dim lfs))%nat →
  train_labels lfs lbls clsfr x sigma = Ret (fit_labels lfs lbls clsfr).
Proof.
  intros Hdim. revert clsfr x sigma.
  induction lbls as [|lbl rest IH]; intros clsfr x sigma Hx Hsigma; [done|].
  cbn [train_labels fit_labels].
  destruct (estimate_spec lfs lbl x sigma Hdim Hx Hsigma) as (x' & -> & Hx').
  cbn [Go.bind fst snd].
  destruct (Inverse (sample_covariance lfs lbl) (Z.to_nat (Dim lfs))); [|done].
  apply IH; [done|]. unfold sample_covariance. apply length_tabulate.
Qed.

Lemma GaussianTrain_spec lfs :
  GaussianTrain lfs
  = if (LabelCount lfs <? 0) || (Dim lfs <? 0) then Panic
    else Ret (fit_labels lfs (seq 0 (Z.to_nat (LabelCount lfs)))
                (blank (LabelCount lfs))).
Proof.
  unfold GaussianTrain.
  destruct (LabelCount lfs <? 0) eqn:Hl.
  { apply Z.ltb_lt in Hl. by rewrite make_neg. }
  apply Z.ltb_ge in Hl. rewrite !make_nonneg by done. cbn [Go.bind orb].
  destruct (Dim lfs <? 0) eqn:Hd.
  { apply Z.ltb_lt in Hd. by rewrite make_neg. }
  apply Z.ltb_ge in Hd. rewrite !make_nonneg by nia. cbn [Go.bind Means].
  rewrite length_replicate.
  apply train_labels_spec; [done|by rewrite length_replicate|].
  rewrite length_replicate. nia.
Qed.

Lemma fit_labels_None lfs lbls clsfr lbl :
  lbl ∈ lbls →
  Inverse (sample_covariance lfs lbl) (Z.to_nat (Dim lfs)) = None →
  fit_labels lfs lbls clsfr = None.
Proof.
  intros Hin Hinv. revert clsfr.
  induction lbls as [|lbl' rest IH]; intros clsfr.
  { by apply elem_of_nil in Hin. }
  cbn [fit_labels]. apply elem_of_cons in Hin as [<-|Hin].
  - by rewrite Hinv.
  - destruct (Inverse (sample_covariance lfs lbl') _); [by apply IH|done].
Qed.

Lemma fit_labels_Some lfs lbls clsfr gc :
  fit_labels lfs lbls clsfr = Some gc →
  NoDup lbls →
  (∀ lbl, lbl ∈ lbls →
     (lbl < length (Means clsfr))%nat ∧ (lbl < length (Precs clsfr))%nat ∧
     (lbl < length (LogCoefs clsfr))%nat) →
  (∀ lbl, lbl ∈ lbls → fitted lfs gc lbl) ∧
  (∀ lbl, lbl ∉ lbls →
     Means gc !! lbl = Means clsfr !! lbl ∧
     Precs gc !! lbl = Precs clsfr !! lbl ∧
     LogCoefs gc !! lbl = LogCoefs clsfr !! lbl) ∧
  length (LogCoefs gc) = length (LogCoefs clsfr) ∧
  LogPrior gc = LogPrior clsfr.
Proof.
  revert clsfr. induction lbls as [|lbl rest IH]; intros clsfr Hfit Hnd Hlen.
  { simpl in Hfit. injection Hfit as <-. split; [|done].
    intros l Hin. by apply elem_of_nil in Hin. }
  cbn [fit_labels] in Hfit. apply NoDup_cons in Hnd as [Hnotin Hnd].
  destruct (Inverse (sample_covariance lfs lbl) (Z.to_nat (Dim lfs)))
    as [inv|] eqn:Hinv; [|done].
  apply IH in Hfit as (Hin & Hout & Hl & Hp); [|done|].
  2:{ intros l Hl. cbn. rewrite !length_insert. apply Hlen. by right. }
  cbn in Hout, Hl, Hp. rewrite length_insert in Hl.
  destruct (Hlen lbl) as (Hm & Hpr & Hlc); [left|].
  split; [|split; [|done]].
  - intros l Hl'. apply elem_of_cons in Hl' as [->|Hl']; [|by apply Hin].
    destruct (Hout lbl Hnotin) as (Em & Ep & Ec).
    rewrite list_lookup_insert_eq in Em by done.
    rewrite list_lookup_insert_eq in Ep by done.
    rewrite list_lookup_insert_eq in Ec by done.
    split; [done|]. by exists inv.
  - intros l Hl'. apply not_elem_of_cons in Hl' as [Hne Hl'].
    destruct (Hout l Hl') as (-> & -> & ->).
    by rewrite !list_lookup_insert_ne.
Qed.

(** A model [GaussianTrain] returns holds, for every label, the statistics
    of that label. *)
Lemma GaussianTrain_fitted lfs gc (lbl : nat) :
  GaussianTrain lfs = Ret (Some gc) →
  Z.of_nat lbl < LabelCount lfs →
  0 ≤ Dim lfs ∧ fitted lfs gc lbl ∧
  length (LogCoefs gc) = Z.to_nat (LabelCount lfs) ∧ LogPrior gc = None.
Proof.
  rewrite GaussianTrain_spec. intros Htrain Hlbl.
  destruct (LabelCount lfs <? 0) eqn:Hl; [done|].
  destruct (Dim lfs <? 0) eqn:Hd; [done|].
  apply Z.ltb_ge in Hl, Hd. cbn [orb] in Htrain. injection Htrain as Hfit.
  apply fit_labels_Some in Hfit as (Hin & _ & Hlen & Hp).
  - split; [done|]. split; [apply Hin, elem_of_seq; lia|].
    cbn in Hlen. by rewrite length_replicate in Hlen.
  - apply NoDup_seq.
  - intros l Hin. apply elem_of_seq in Hin. cbn. rewrite !length_replicate. lia.
Qed.

End Training.

(** ** Classification *)

Lemma Classify_loop gc x (score : nat → float) n :
  (∀ j, (j < n)%nat → LogPosterior gc (Z.of_nat j) x = Ret (score j)) →
  match n with
  | O => for_each (seq 0 n) (Classify_step gc x) (-1, 0%float)
         = Ret (-1, 0%float)
  | S _ => ∃ r, for_each (seq 0 n) (Classify_step gc x) (-1, 0%float)
                = Ret (Z.of_nat r, score r) ∧ best_of score n r
  end.
Proof.
  induction n as [|n IH]; intros Hs; [done|].
  rewrite seq_S, for_each_snoc. simpl.
  assert (Hn : LogPosterior gc (Z.of_nat n) x = Ret (score n)) by (apply Hs; lia).
  destruct n as [|n'].
  - simpl. unfold Classify_step. rewrite Hn. simpl.
    exists O. split; [done|]. split; [lia|]. split; [|split; [intros; lia|by left]].
    intros j Hj. assert (j = O) as -> by lia. apply Float64Facts.ltb_irrefl.
  - destruct IH as (r & -> & Hr & Hmax & Hfirst & Hprev);
      [intros; apply Hs; lia|].
    simpl. unfold Classify_step at 1. rewrite Hn. simpl.
    replace (Z.of_nat r <? 0) with false by (symmetry; apply Z.ltb_ge; lia).
    simpl. destruct (score r <? score (S n'))%float eqn:Hlt.
    + exists (S n'). split; [done|]. split; [lia|]. split; [|split].
      * intros j Hj. destruct (decide (j = S n')) as [->|Hne].
        { apply Float64Facts.ltb_irrefl. }
        destruct (score (S n') <? score j)%float eqn:E; [|done].
        rewrite <- (Hmax j); [|lia]. symmetry.
        by apply Float64Facts.ltb_trans with (score (S n')).
      * intros j Hj.
        destruct (score (S n') <=? score j)%float eqn:E; [|done].
        rewrite <- (Hmax j); [|lia]. symmetry.
        by apply Float64Facts.ltb_leb_trans with (score (S n')).
      * right. exists r. split; [lia|done].
    + exists r. split; [done|]. split; [lia|]. split; [|done].
      intros j Hj. destruct (decide (j = S n')) as [->|Hne]; [done|].
      apply Hmax; lia.
Qed.

(** C1. [Classify] scores the labels in ascending order and returns a label
    of maximal score, the lowest-indexed one among equals: no label scores
    strictly above the returned one, no earlier label scores as high, and
    (when no score is NaN) every score is at most the returned one.  With no
    label at all it returns the sentinel -1. *)
Theorem Classify_argmax gc x (score : nat → float) :
  (∀ j, (j < length (LogCoefs gc))%nat →
        LogPosterior gc (Z.of_nat j) x = Ret (score j)) →
  ∃ label, Classify gc x = Ret label ∧
    (length (LogCoefs gc) = O → label = -1) ∧
    (length (LogCoefs gc) ≠ O →
       ∃ r, label = Z.of_nat r ∧ (r < length (LogCoefs gc))%nat ∧
         (∀ j, (j < length (LogCoefs gc))%nat →
               (score r <? score j)%float = false) ∧
         (∀ j, (j < r)%nat → (score r <=? score j)%float = false) ∧
         ((∀ j, (j < length (LogCoefs gc))%nat →
                Float64.is_nan (score j) = false) →
          ∀ j, (j < length (LogCoefs gc))%nat →
               (score j <=? score r)%float = true)).
Proof.
  intros Hs. unfold Classify.
  pose proof (Classify_loop gc x score _ Hs) as H.
  destruct (length (LogCoefs gc)) as [|n] eqn:En.
  - rewrite H. simpl. exists (-1). by repeat split.
  - destruct H as (r & -> & Hr & Hmax & Hfirst & _). simpl.
    exists (Z.of_nat r). split; [done|]. split; [done|]. intros _.
    exists r. repeat split; try done.
    intros Hnan j Hj. apply Float64Facts.leb_of_not_ltb; auto.
Qed.

(** C9. With at least one label, [Classify] returns a label of the model
    and never the sentinel: the first label replaces the sentinel, and a
    later label replaces the best one only on a strict [>].  When no score
    is strictly above the first one (all NaN, all -infinity) the first label
    is returned. *)
Theorem Classify_never_sentinel gc x (score : nat → float) :
  (∀ j, (j < length (LogCoefs gc))%nat →
        LogPosterior gc (Z.of_nat j) x = Ret (score j)) →
  length (LogCoefs gc) ≠ O →
  ∃ label, Classify gc x = Ret label ∧
    0 ≤ label < Z.of_nat (length (LogCoefs gc)) ∧
    ((∀ j, (j < length (LogCoefs gc))%nat → Float64.is_nan (score j) = true) →
     label = 0) ∧
    ((∀ j, (j < length (LogCoefs gc))%nat → score j = neg_infinity) →
     label = 0).
Proof.
  intros Hs Hn. unfold Classify.
  pose proof (Classify_loop gc x score _ Hs) as H.
  destruct (length (LogCoefs gc)) as [|n] eqn:En; [done|].
  destruct H as (r & -> & Hr & _ & _ & Hprev). simpl.
  exists (Z.of_nat r). split; [done|]. split; [lia|]. split.
  - intros Hnan. destruct Hprev as [->|(b & Hb & Hlt)]; [done|].
    rewrite Float64Facts.ltb_nan_r in Hlt; [done|]. apply Hnan. lia.
  - intros Hinf. destruct Hprev as [->|(b & Hb & Hlt)]; [done|].
    rewrite !Hinf in Hlt by lia. by rewrite Float64Facts.ltb_irrefl in Hlt.
Qed.

(** ** Scoring *)

Lemma index_of_nat {A} (s : list A) (n : nat) : index s (Z.of_nat n) = at_ s n.
Proof.
  unfold index, at_. rewrite (proj2 (Z.ltb_ge (Z.of_nat n) 0)) by lia.
  by rewrite Nat2Z.id.
Qed.

Lemma at_lookup {A} (s : list A) k a : s !! k = Some a → at_ s k = Ret a.
Proof. unfold at_. by intros ->. Qed.

Lemma at_nth (s : list float) k :
  (k < length s)%nat → at_ s k = Ret (nth k s 0%float).
Proof.
  intros Hk. destruct (lookup_lt_is_Some_2 s k Hk) as [a Ha].
  by rewrite (at_lookup _ _ _ Ha), (nth_lookup_Some _ _ _ _ Ha).
Qed.

Lemma at_ge {A} (s : list A) k : (length s ≤ k)%nat → at_ s k = Panic.
Proof. intros Hk. unfold at_. by rewrite lookup_ge_None_2. Qed.

Lemma for_each_pure {I S} (idx : list I) (f : S → I → S) s :
  for_each idx (fun i s => Ret (f s i)) s = Ret (fold_left f idx s).
Proof. revert s. induction idx as [|i idx IH]; intros s; simpl; auto. Qed.

Lemma for_each_panic {I S} (idx : list I) (body : I → S → go S) s i :
  i ∈ idx → (∀ s, body i s = Panic) → for_each idx body s = Panic.
Proof.
  intros Hi Hp. revert s. induction idx as [|j idx IH]; intros s.
  { by apply elem_of_nil in Hi. }
  simpl. apply elem_of_cons in Hi as [<-|Hi]; [by rewrite Hp|].
  destruct (body j s); simpl; auto.
Qed.

(** C2. For a label of the model and a query of the model's dimension,
    [LogLikelyhood] is the stored log-coefficient plus the bilinear form of
    [x - mean] in the stored precision matrix, and nothing else. *)
Theorem LogLikelyhood_formula gc (label : nat) x logCoef mean prec :
  LogCoefs gc !! label = Some logCoef →
  Means gc !! label = Some mean →
  Precs gc !! label = Some prec →
  length x = length mean →
  length prec = (length mean * length mean)%nat →
  LogLikelyhood gc (Z.of_nat label) x = Ret (log_density logCoef mean prec x).
Proof.
  intros Hc Hm Hp Hx Hprec. unfold LogLikelyhood.
  rewrite !index_of_nat, (at_lookup _ _ _ Hc), (at_lookup _ _ _ Hm),
    (at_lookup _ _ _ Hp).
  cbn [Go.bind].
  set (d := length mean).
  rewrite (for_each_ext _ _ (fun k logP =>
    for_each (seq 0 d) (fun l logP =>
      Ret (logP + (nth k x 0 - nth k mean 0) * (nth l x 0 - nth l mean 0)
                  * nth (k * d + l) prec 0)%float) logP)).
  2:{ intros k s Hk. apply elem_of_seq in Hk.
      rewrite !at_nth by (unfold d in *; lia). cbn [Go.bind].
      apply for_each_ext. intros l s' Hl. apply elem_of_seq in Hl.
      rewrite !at_nth; [done|..]; try (unfold d in *; lia).
      rewrite Hprec. apply flat_lt; unfold d in *; lia. }
  rewrite (for_each_nested (seq 0 d) (fun _ => seq 0 d)
    (fun k l logP =>
      Ret (logP + (nth k x 0 - nth k mean 0) * (nth l x 0 - nth l mean 0)
                  * nth (k * d + l) prec 0)%float)).
  fold (square d).
  by rewrite (for_each_pure (square d)
    (fun acc p => (acc + (nth p.1 x 0 - nth p.1 mean 0)
                         * (nth p.2 x 0 - nth p.2 mean 0)
                         * nth (p.1 * d + p.2) prec 0)%float)).
Qed.

(** ** Queries of another dimension *)

Lemma index_elem_of {A} (s : list A) (i : Z) a : index s i = Ret a → a ∈ s.
Proof.
  unfold index. destruct (i <? 0); [done|].
  destruct (s !! Z.to_nat i) eqn:E; [|done].
  intros [= <-]. by eapply list_elem_of_lookup_2.
Qed.

(** A query shorter than the mean of the label: the loops index past it. *)
Lemma LogLikelyhood_short gc label x :
  (∀ mean, index (Means gc) label = Ret mean → (length x < length mean)%nat) →
  LogLikelyhood gc label x = Panic.
Proof.
  intros Hshort. unfold LogLikelyhood.
  destruct (index (LogCoefs gc) label) as [logP|]; [|done].
  destruct (index (Means gc) label) as [mean|] eqn:Hm; [|done].
  destruct (index (Precs gc) label) as [prec|]; [|done].
  specialize (Hshort mean eq_refl). cbn [Go.bind].
  apply for_each_panic with O; [apply elem_of_seq; lia|].
  intros s. destruct (at_ x 0); [|done]. destruct (at_ mean 0); [|done].
  cbn [Go.bind]. apply for_each_panic with (length x); [apply elem_of_seq; lia|].
  intros s'. by rewrite at_ge.
Qed.

(** Only the components of the query below the length of the mean are read. *)
Lemma LogLikelyhood_take gc label x d :
  (∀ mean, index (Means gc) label = Ret mean → length mean = d) →
  LogLikelyhood gc label x = LogLikelyhood gc label (take d x).
Proof.
  intros Hd. unfold LogLikelyhood.
  destruct (index (LogCoefs gc) label) as [logP|]; [|done].
  destruct (index (Means gc) label) as [mean|] eqn:Hm; [|done].
  destruct (index (Precs gc) label) as [prec|]; [|done].
  specialize (Hd mean eq_refl). subst d. cbn [Go.bind].
  apply for_each_ext. intros k s Hk. apply elem_of_seq in Hk.
  assert (Ht : ∀ j, (j < length mean)%nat → at_ (take (length mean) x) j = at_ x j).
  { intros j Hj. unfold at_. by rewrite lookup_take_lt. }
  rewrite Ht by lia. destruct (at_ x k); [|done]. destruct (at_ mean k); [|done].
  cbn [Go.bind]. apply for_each_ext. intros l s' Hl. apply elem_of_seq in Hl.
  by rewrite Ht by lia.
Qed.

Lemma LogPosterior_ext gc label x x' :
  LogLikelyhood gc label x = LogLikelyhood gc label x' →
  LogPosterior gc label x = LogPosterior gc label x'.
Proof. unfold LogPosterior. by intros ->. Qed.

(** C8, as the code has it.  In a model whose means all have length [dim]:
    a query shorter than [dim] makes [LogLikelyhood] panic (index out of
    range) for every label, and [Classify] too when the model has a label; a
    query longer than [dim] is accepted, and scored and classified as its
    first [dim] components. *)
Theorem dimension_mismatch gc (dim : nat) x :
  (∀ mean, mean ∈ Means gc → length mean = dim) →
  ((length x < dim)%nat →
     (∀ label, LogLikelyhood gc label x = Panic) ∧
     (LogCoefs gc ≠ [] → Classify gc x = Panic)) ∧
  ((dim < length x)%nat →
     (∀ label, LogLikelyhood gc label x = LogLikelyhood gc label (take dim x)) ∧
     Classify gc x = Classify gc (take dim x)).
Proof.
  intros Hdim. split.
  - intros Hx.
    assert (Hll : ∀ label, LogLikelyhood gc label x = Panic).
    { intros label. apply LogLikelyhood_short. intros mean Hm.
      apply index_elem_of, Hdim in Hm. lia. }
    split; [done|]. intros Hne. unfold Classify.
    destruct (LogCoefs gc) as [|c cs]; [done|]. cbn [length seq for_each].
    unfold Classify_step at 1, LogPosterior. rewrite Hll.
    by destruct (LogPrior gc).
  - intros _.
    assert (Hll : ∀ label,
      LogLikelyhood gc label x = LogLikelyhood gc label (take dim x)).
    { intros label. apply LogLikelyhood_take. intros mean Hm.
      by apply index_elem_of, Hdim in Hm. }
    split; [done|]. unfold Classify. f_equal.
    apply for_each_ext. intros lbl s _. unfold Classify_step.
    by rewrite (LogPosterior_ext gc _ x (take dim x)).
Qed.

(** C8 fails as stated: a query of length 2 is scored and classified by a
    model of dimension 1. *)
Lemma dimension_mismatch_accepted :
  length <$> Means unit_model = [1%nat; 1%nat] ∧
  length [1%float; 7%float] ≠ 1%nat ∧
  LogLikelyhood unit_model 0 [1%float; 7%float] = Ret (-1.5)%float ∧
  Classify unit_model [1%float; 7%float] = Ret 0.
Proof. repeat split; [done|vm_compute; reflexivity..]. Qed.

(** ** Priors *)

Section Priors.
Context `{Imports}.

(** The loop of [SetPrior] after [n] of the priors, on an array that has
    room for them. *)
Lemma SetPrior_loop (priors logPrior : list float) n :
  (n ≤ length priors)%nat → (n ≤ length logPrior)%nat →
  for_each (seq 0 n) (fun i logPrior =>
      p <- at_ priors i ;; update logPrior i (fun _ => math_Log p)) logPrior
  = Ret ((math_Log <$> take n priors) ++ drop n logPrior).
Proof.
  induction n as [|n IH]; intros Hp Hl; [by rewrite take_0, drop_0|].
  rewrite seq_S, for_each_snoc, IH by lia. cbn [Go.bind plus].
  destruct (lookup_lt_is_Some_2 priors n) as [p Hpn]; [lia|].
  destruct (lookup_lt_is_Some_2 logPrior n) as [a Ha]; [lia|].
  rewrite (at_lookup _ _ _ Hpn). cbn [Go.bind]. unfold update.
  assert (Hlen : length (math_Log <$> take n priors) = n).
  { rewrite length_fmap, length_take. lia. }
  rewrite lookup_app_r, Hlen, Nat.sub_diag, lookup_drop, Nat.add_0_r, Ha by lia.
  f_equal. rewrite <- (Nat.add_0_r n) at 1. rewrite <- Hlen at 1.
  rewrite insert_app_r. rewrite (take_S_r _ _ _ Hpn), fmap_app, <- app_assoc.
  f_equal. rewrite (drop_S _ _ _ Ha). done.
Qed.

(** On an array shorter than the priors the loop indexes past its end. *)
Lemma SetPrior_loop_short (priors logPrior : list float) :
  (length logPrior < length priors)%nat →
  for_each (seq 0 (length priors)) (fun i logPrior =>
      p <- at_ priors i ;; update logPrior i (fun _ => math_Log p)) logPrior
  = Panic.
Proof.
  intros Hlt.
  replace (length priors)
    with (length logPrior + (length priors - length logPrior))%nat by lia.
  rewrite seq_app, for_each_app, SetPrior_loop by lia. cbn [Go.bind plus].
  destruct (length priors - length logPrior)%nat as [|m] eqn:Em; [lia|].
  cbn [seq for_each].
  destruct (at_ priors (length logPrior)); [|done]. cbn [Go.bind].
  unfold update. rewrite lookup_ge_None_2; [done|].
  rewrite length_app, length_fmap, length_take, length_drop. lia.
Qed.

Lemma SetPrior_fresh gc (priors : list float) :
  LogPrior gc = None →
  SetPrior gc priors = Ret (with_prior gc (math_Log <$> priors)).
Proof.
  unfold SetPrior. intros ->.
  rewrite SetPrior_loop by (rewrite ?length_replicate; lia).
  cbn [Go.bind]. rewrite firstn_all.
  rewrite drop_ge by (rewrite length_replicate; lia). by rewrite app_nil_r.
Qed.

Lemma SetPrior_longer gc (priors old : list float) :
  LogPrior gc = Some old → (length old < length priors)%nat →
  SetPrior gc priors = Panic.
Proof. unfold SetPrior. intros -> Hlt. by rewrite SetPrior_loop_short. Qed.

Lemma SetPrior_shorter gc (priors old : list float) :
  LogPrior gc = Some old → (length priors ≤ length old)%nat →
  SetPrior gc priors
  = Ret (with_prior gc ((math_Log <$> priors) ++ drop (length priors) old)).
Proof.
  unfold SetPrior. intros -> Hle. rewrite SetPrior_loop by lia.
  by rewrite firstn_all.
Qed.

(** C10. [SetPrior] allocates the log-prior array only when there is none,
    with the length of its argument.  On an existing array, a longer
    argument is written past the end of the array (a panic: the array is not
    grown); a shorter one overwrites the first entries and leaves the
    others as they were. *)
Theorem SetPrior_allocation gc (priors : list float) :
  (LogPrior gc = None →
     SetPrior gc priors = Ret (with_prior gc (math_Log <$> priors))) ∧
  (∀ old, LogPrior gc = Some old → (length old < length priors)%nat →
     SetPrior gc priors = Panic) ∧
  (∀ old, LogPrior gc = Some old → (length priors ≤ length old)%nat →
     SetPrior gc priors
     = Ret (with_prior gc ((math_Log <$> priors) ++ drop (length priors) old))).
Proof.
  split; [apply SetPrior_fresh|]. split; intros old.
  - apply SetPrior_longer.
  - apply SetPrior_shorter.
Qed.

(** C7. Without a prior [LogPosterior] is [LogLikelyhood]; with one it adds
    the log-prior of the label.  [SetPrior] stores the logarithm of each
    prior it is given, so that afterwards the posterior of a label covered
    by [priors] is its likelihood plus the logarithm of its prior. *)
Theorem LogPosterior_prior gc (label : nat) x (priors : list float) :
  (LogPrior gc = None →
     LogPosterior gc (Z.of_nat label) x = LogLikelyhood gc (Z.of_nat label) x) ∧
  (∀ logPrior lp ll,
     LogPrior gc = Some logPrior → logPrior !! label = Some lp →
     LogLikelyhood gc (Z.of_nat label) x = Ret ll →
     LogPosterior gc (Z.of_nat label) x = Ret (ll + lp)%float) ∧
  ((∀ old, LogPrior gc = Some old → (length priors ≤ length old)%nat) →
   ∃ gc' logPrior,
     SetPrior gc priors = Ret gc' ∧ LogPrior gc' = Some logPrior ∧
     (∀ l p, priors !! l = Some p → logPrior !! l = Some (math_Log p)) ∧
     (∀ p ll, priors !! label = Some p →
        LogLikelyhood gc (Z.of_nat label) x = Ret ll →
        LogPosterior gc' (Z.of_nat label) x = Ret (ll + math_Log p)%float)).
Proof.
  split; [|split].
  - unfold LogPosterior. by intros ->.
  - intros logPrior lp ll Hlp Hl Hll. unfold LogPosterior.
    rewrite Hlp, Hll, index_of_nat, (at_lookup _ _ _ Hl). done.
  - intros Hroom.
    assert (∃ tail, SetPrior gc priors
                    = Ret (with_prior gc ((math_Log <$> priors) ++ tail)))
      as [tail Hset].
    { destruct (LogPrior gc) as [old|] eqn:Hold.
      - eexists. apply SetPrior_shorter; [done|]. by apply Hroom.
      - exists []. rewrite app_nil_r. by apply SetPrior_fresh. }
    exists (with_prior gc ((math_Log <$> priors) ++ tail)),
           ((math_Log <$> priors) ++ tail).
    split; [done|]. split; [done|].
    assert (Hstored : ∀ l p, priors !! l = Some p →
              ((math_Log <$> priors) ++ tail) !! l = Some (math_Log p)).
    { intros l p Hp. rewrite lookup_app_l.
      - by rewrite list_lookup_fmap, Hp.
      - rewrite length_fmap. by apply lookup_lt_Some in Hp. }
    split; [done|]. intros p ll Hp Hll. unfold LogPosterior. cbn [LogPrior with_prior].
    change (LogLikelyhood (with_prior gc _) (Z.of_nat label) x)
      with (LogLikelyhood gc (Z.of_nat label) x).
    rewrite Hll, index_of_nat, (at_lookup _ _ _ (Hstored _ _ Hp)). done.
Qed.

End Priors.

(** ** What training stores, and when it fails *)

Lemma tabulate_zero d : tabulate d (fun _ _ => 0%float) = replicate (d * d) 0%float.
Proof.
  symmetry. apply tabulate_eq; [apply length_replicate|].
  intros k l Hk Hl. apply lookup_replicate_2. by apply flat_lt.
Qed.

Lemma sample_means_lookup lfs lbl k :
  (k < Z.to_nat (Dim lfs))%nat →
  sample_means lfs lbl !! k = Some (sample_mean lfs lbl k).
Proof.
  intros Hk. unfold sample_means. by rewrite list_lookup_fmap, lookup_seq_lt.
Qed.

Lemma float64_one : float64 1 = 1%float.
Proof. vm_compute. reflexivity. Qed.

(** A label without features: nothing is added to [sigma]. *)
Lemma sample_covariance_no_sample lfs lbl :
  FeatureCount lfs (Z.of_nat lbl) = 0 →
  sample_covariance lfs lbl
  = replicate (Z.to_nat (Dim lfs) * Z.to_nat (Dim lfs)) 0%float.
Proof.
  intros Hcnt. rewrite <- tabulate_zero. apply tabulate_ext. intros k l _ _.
  unfold sample_cov, deviation_products, samples. by rewrite Hcnt.
Qed.

(** A label with one finite feature: the feature is its own mean. *)
Lemma sample_covariance_one_sample lfs lbl :
  FeatureCount lfs (Z.of_nat lbl) = 1 →
  (∀ k, (k < Z.to_nat (Dim lfs))%nat →
        Float64.is_finite (feature lfs lbl 0 k) = true) →
  sample_covariance lfs lbl
  = replicate (Z.to_nat (Dim lfs) * Z.to_nat (Dim lfs)) 0%float.
Proof.
  intros Hcnt Hfin. rewrite <- tabulate_zero. apply tabulate_ext.
  intros k l Hk Hl.
  unfold sample_cov, deviation_products, sample_mean, samples.
  rewrite Hcnt, float64_one. cbn [Z.ltb Z.compare Z.to_nat Pos.to_nat
    Pos.iter_op Pos.compare Pos.compare_cont fsum seq fold_left].
  unfold fsum. cbn [seq Pos.to_nat Pos.iter_op Init.Nat.add fold_left].
  apply Float64Facts.single_sample_deviation; apply Hfin; lia.
Qed.

Section Results.
Context `{Imports}.

(** C3. In a model returned by training, the mean stored for a label with
    at least two features is the sum of its features over their number; the
    matrix handed to the inversion holds, above and on the diagonal, the sum
    of the products of deviations over the number of features less one, and
    below the diagonal the same values mirrored, so that it is symmetric
    entry for entry. *)
Theorem GaussianTrain_mean_covariance lfs gc (lbl : nat) :
  GaussianTrain lfs = Ret (Some gc) →
  Z.of_nat lbl < LabelCount lfs →
  2 ≤ FeatureCount lfs (Z.of_nat lbl) →
  ∃ mean sigma,
    Means gc !! lbl = Some mean ∧
    (∀ x s, length x = Z.to_nat (Dim lfs) →
            length s = (Z.to_nat (Dim lfs) * Z.to_nat (Dim lfs))%nat →
            ∃ x', estimate lfs lbl x s = Ret (mean, x', sigma)) ∧
    Inverse sigma (Z.to_nat (Dim lfs)) ≠ None ∧
    length mean = Z.to_nat (Dim lfs) ∧
    (∀ k, (k < Z.to_nat (Dim lfs))%nat →
       mean !! k
       = Some (fsum (fun i => feature lfs lbl i k)
                 (Z.to_nat (FeatureCount lfs (Z.of_nat lbl)))
               / float64 (FeatureCount lfs (Z.of_nat lbl)))%float) ∧
    length sigma = (Z.to_nat (Dim lfs) * Z.to_nat (Dim lfs))%nat ∧
    (∀ k l, (k ≤ l)%nat → (l < Z.to_nat (Dim lfs))%nat →
       sigma !! (k * Z.to_nat (Dim lfs) + l)%nat
       = Some (fsum (fun i => ((feature lfs lbl i k - nth k mean 0)
                               * (feature lfs lbl i l - nth l mean 0))%float)
                 (Z.to_nat (FeatureCount lfs (Z.of_nat lbl)))
               / float64 (FeatureCount lfs (Z.of_nat lbl) - 1))%float) ∧
    (∀ k l, (k < Z.to_nat (Dim lfs))%nat → (l < Z.to_nat (Dim lfs))%nat →
       sigma !! (l * Z.to_nat (Dim lfs) + k)%nat
       = sigma !! (k * Z.to_nat (Dim lfs) + l)%nat).
Proof.
  intros Htrain Hlbl Hcnt.
  destruct (GaussianTrain_fitted lfs gc lbl Htrain Hlbl)
    as (Hdim & (Hmean & inv & Hinv & _) & _).
  exists (sample_means lfs lbl), (sample_covariance lfs lbl).
  split; [done|]. split.
  { intros x s Hx Hs.
    destruct (estimate_spec lfs lbl x s Hdim Hx Hs) as (x' & -> & _). by exists x'. }
  split; [by rewrite Hinv|]. split.
  { unfold sample_means. by rewrite length_map, length_seq. }
  split; [intros k Hk; by rewrite sample_means_lookup|].
  split; [apply length_tabulate|]. split.
  - intros k l Hkl Hl. unfold sample_covariance.
    rewrite tabulate_lookup by lia. rewrite Nat.min_l, Nat.max_r by lia.
    unfold sample_cov. rewrite (proj2 (Z.ltb_lt 1 _)) by lia.
    unfold deviation_products, samples.
    assert (Hnth : ∀ j, (j < Z.to_nat (Dim lfs))%nat →
              nth j (sample_means lfs lbl) 0%float = sample_mean lfs lbl j).
    { intros j Hj. by apply nth_lookup_Some, sample_means_lookup. }
    by rewrite !Hnth by lia.
  - intros k l Hk Hl. unfold sample_covariance.
    rewrite !tabulate_lookup by done. by rewrite Nat.min_comm, Nat.max_comm.
Qed.

Lemma float64_nonneg n : 0 ≤ n → float64 n = of_uint63 (Uint63.of_Z n).
Proof.
  intros Hn. unfold float64.
  rewrite (proj2 (Z.eqb_neq n (- 2 ^ 63))) by lia.
  by rewrite (proj2 (Z.ltb_ge n 0)).
Qed.

(** C4. In a model returned by training, the precision stored for a label
    is the inverse of its covariance with every element multiplied by -0.5,
    and the log-coefficient is -0.5 * (ln(2 pi) * dim + ln(det)): the
    logarithm is taken of the binary64 number 7074237752028440 * 2^-50, which
    is less than half a unit in the last place (2^-51) away from twice
    3.14159265358979323846 and from twice 3.14159265358979323847, so the
    binary64 number nearest to 2 pi; [dim] is converted by the kernel's
    conversion of integers. *)
Theorem GaussianTrain_precision_logCoef lfs gc (lbl : nat) :
  GaussianTrain lfs = Ret (Some gc) →
  Z.of_nat lbl < LabelCount lfs →
  (∃ inv,
     Inverse (sample_covariance lfs lbl) (Z.to_nat (Dim lfs)) = Some inv ∧
     Precs gc !! lbl = Some (map (fun v => (v * -0.5)%float) inv) ∧
     LogCoefs gc !! lbl
     = Some (-0.5 * (math_Log 0x1.921fb54442d18p+2
                       * of_uint63 (Uint63.of_Z (Dim lfs))
                     + math_Log (Det (sample_covariance lfs lbl)
                                   (Z.to_nat (Dim lfs)))))%float) ∧
  Prim2SF 0x1.921fb54442d18p+2 = S754_finite false 7074237752028440 (-50) ∧
  Z.abs (7074237752028440 * 10 ^ 20 - 2 * 314159265358979323846 * 2 ^ 50) * 2
    < 10 ^ 20 ∧
  Z.abs (7074237752028440 * 10 ^ 20 - 2 * 314159265358979323847 * 2 ^ 50) * 2
    < 10 ^ 20.
Proof.
  intros Htrain Hlbl.
  destruct (GaussianTrain_fitted lfs gc lbl Htrain Hlbl)
    as (Hdim & (_ & inv & Hinv & Hprec & Hcoef) & _).
  split; [|split; [vm_compute; reflexivity|split; vm_compute; reflexivity]].
  exists inv. split; [done|]. split; [done|].
  rewrite Hcoef. unfold logCoef_of, two_pi. by rewrite float64_nonneg.
Qed.

Lemma GaussianTrain_not_invertible lfs (lbl : nat) :
  Z.of_nat lbl < LabelCount lfs →
  Inverse (sample_covariance lfs lbl) (Z.to_nat (Dim lfs)) = None →
  GaussianTrain lfs = if Dim lfs <? 0 then Panic else Ret None.
Proof.
  intros Hlbl Hinv. rewrite GaussianTrain_spec.
  rewrite (proj2 (Z.ltb_ge (LabelCount lfs) 0)) by lia. cbn [orb].
  destruct (Dim lfs <? 0); [done|]. f_equal.
  apply fit_labels_None with lbl; [|done]. apply elem_of_seq. lia.
Qed.

(** C5. When the inversion of the covariance of some label fails, training
    returns [nil] (or, with a negative dimension, has panicked before): it
    never returns a model, of whatever labels. *)
Theorem GaussianTrain_singular lfs (lbl : nat) :
  Z.of_nat lbl < LabelCount lfs →
  Inverse (sample_covariance lfs lbl) (Z.to_nat (Dim lfs)) = None →
  GaussianTrain lfs = (if Dim lfs <? 0 then Panic else Ret None) ∧
  ∀ gc, GaussianTrain lfs ≠ Ret (Some gc).
Proof.
  intros Hlbl Hinv. rewrite (GaussianTrain_not_invertible lfs lbl Hlbl Hinv).
  split; [done|]. intros gc. by destruct (Dim lfs <? 0).
Qed.

(** C6, as the code has it.  The code does not look at the count of
    features: a label fails the training only through the inversion of its
    covariance.  A label with no feature, or with a single feature whose
    components are all finite, has exactly the zero matrix for covariance
    (with one feature, the sum that is not divided); whenever the matrix
    package reports that zero matrix as singular, training returns no
    model. *)
Theorem GaussianTrain_too_few_samples lfs (lbl : nat) :
  Z.of_nat lbl < LabelCount lfs →
  FeatureCount lfs (Z.of_nat lbl) = 0 ∨
  (FeatureCount lfs (Z.of_nat lbl) = 1 ∧
   ∀ k, (k < Z.to_nat (Dim lfs))%nat →
        Float64.is_finite (feature lfs lbl 0 k) = true) →
  Inverse (replicate (Z.to_nat (Dim lfs) * Z.to_nat (Dim lfs)) 0%float)
    (Z.to_nat (Dim lfs)) = None →
  sample_covariance lfs lbl
  = replicate (Z.to_nat (Dim lfs) * Z.to_nat (Dim lfs)) 0%float ∧
  ∀ gc, GaussianTrain lfs ≠ Ret (Some gc).
Proof.
  intros Hlbl Hcnt Hinv.
  assert (Hzero : sample_covariance lfs lbl
    = replicate (Z.to_nat (Dim lfs) * Z.to_nat (Dim lfs)) 0%float).
  { destruct Hcnt as [Hcnt|[Hcnt Hfin]].
    - by apply sample_covariance_no_sample.
    - by apply sample_covariance_one_sample. }
  split; [done|]. rewrite <- Hzero in Hinv.
  rewrite (GaussianTrain_not_invertible lfs lbl Hlbl Hinv).
  intros gc. by destruct (Dim lfs <? 0).
Qed.

End Results.

(** C6 fails as stated: the only feature of the only label has an infinite
    component, its covariance is NaN and not the zero matrix, and the
    inversion, which reports the zero matrix as singular, accepts it:
    training returns a model. *)
Lemma one_infinite_sample_trains :
  LabelCount (source [[infinity]]) = 1 ∧
  FeatureCount (source [[infinity]]) 0 = 1 ∧
  Inverse (Imports := scalar_imports) [0%float] 1 = None ∧
  sample_covariance (source [[infinity]]) 0 = [nan] ∧
  ∃ gc, GaussianTrain (H := scalar_imports) (source [[infinity]])
        = Ret (Some gc).
Proof.
  repeat split; try (vm_compute; reflexivity).
  vm_compute. eexists. reflexivity.
Qed.

(** * Further properties of the code *)

(** ** Loops that return *)

Lemma for_each_returns {I S} (idx : list I) (body : I → S → go S) s :
  (∀ i s, i ∈ idx → ∃ s', body i s = Ret s') →
  ∃ s', for_each idx body s = Ret s'.
Proof.
  revert s. induction idx as [|i idx IH]; intros s Hb; [by exists s|].
  simpl. destruct (Hb i s) as [s1 ->]; [left|]. simpl.
  apply IH. intros j s2 Hj. apply Hb. by right.
Qed.

(** With a label of the model, a query at least as long as the mean and a
    precision of [dim * dim] elements at least, every index of
    [LogLikelyhood] is in range. *)
Lemma LogLikelyhood_returns gc (label : nat) x logCoef mean prec :
  LogCoefs gc !! label = Some logCoef →
  Means gc !! label = Some mean →
  Precs gc !! label = Some prec →
  (length mean ≤ length x)%nat →
  (length mean * length mean ≤ length prec)%nat →
  ∃ v, LogLikelyhood gc (Z.of_nat label) x = Ret v.
Proof.
  intros Hc Hm Hp Hx Hprec. unfold LogLikelyhood.
  rewrite !index_of_nat, (at_lookup _ _ _ Hc), (at_lookup _ _ _ Hm),
    (at_lookup _ _ _ Hp).
  cbn [Go.bind]. apply for_each_returns. intros k s Hk. apply elem_of_seq in Hk.
  rewrite !at_nth by lia. cbn [Go.bind].
  apply for_each_returns. intros l s' Hl. apply elem_of_seq in Hl.
  rewrite !at_nth; [by eexists|..]; try lia.
  eapply Nat.lt_le_trans; [apply flat_lt|exact Hprec]; lia.
Qed.

Lemma score_of_returns gc x j v :
  LogPosterior gc (Z.of_nat j) x = Ret v → LogPosterior gc (Z.of_nat j) x = Ret (score_of gc x j).
Proof. unfold score_of. by intros ->. Qed.

(** ** Classification, further *)

(** X1. Of two labels with the same score, [Classify] never returns the
    later one, whatever the score (NaN included): a tie leaves the earlier
    label in place. *)
Theorem Classify_first_of_equals gc x (score : nat → float) (i j : nat) :
  (∀ l, (l < length (LogCoefs gc))%nat →
        LogPosterior gc (Z.of_nat l) x = Ret (score l)) →
  (i < j)%nat → (j < length (LogCoefs gc))%nat →
  score i = score j →
  ∃ label, Classify gc x = Ret label ∧ label ≠ Z.of_nat j.
Proof.
  intros Hs Hij Hj Heq. unfold Classify.
  pose proof (Classify_loop gc x score _ Hs) as H.
  destruct (length (LogCoefs gc)) as [|n] eqn:En; [lia|].
  destruct H as (r & -> & Hr & _ & Hfirst & Hprev). simpl.
  exists (Z.of_nat r). split; [done|]. intros E. apply Nat2Z.inj in E. subst r.
  specialize (Hfirst i Hij). rewrite Heq in Hfirst.
  destruct (Float64.is_nan (score j)) eqn:Hnan.
  - destruct Hprev as [->|(b & _ & Hlt)]; [lia|].
    by rewrite Float64Facts.ltb_nan_r in Hlt.
  - by rewrite Float64Facts.leb_refl in Hfirst.
Qed.

(** X2. A precision with fewer than [dim * dim] elements makes
    [LogLikelyhood] panic, whatever the query. *)
Theorem LogLikelyhood_short_precision gc label x mean prec :
  index (Means gc) label = Ret mean →
  index (Precs gc) label = Ret prec →
  (length prec < length mean * length mean)%nat →
  LogLikelyhood gc label x = Panic.
Proof.
  intros Hm Hp Hlen. unfold LogLikelyhood.
  destruct (index (LogCoefs gc) label) as [logP|]; [|done].
  rewrite Hm, Hp. cbn [Go.bind].
  set (d := length mean) in *.
  assert (Hd : (0 < d)%nat) by (destruct d; lia).
  assert (Hq : (length prec / d < d)%nat)
    by (apply Nat.Div0.div_lt_upper_bound; lia).
  assert (Hr : (length prec `mod` d < d)%nat)
    by (apply Nat.mod_upper_bound; lia).
  apply for_each_panic with (length prec / d)%nat; [apply elem_of_seq; lia|].
  intros s. destruct (at_ x (length prec / d)); [|done].
  destruct (at_ mean (length prec / d)); [|done]. cbn [Go.bind].
  apply for_each_panic with (length prec `mod` d)%nat; [apply elem_of_seq; lia|].
  intros s'. destruct (at_ x (length prec `mod` d)); [|done].
  destruct (at_ mean (length prec `mod` d)); [|done]. cbn [Go.bind].
  rewrite at_ge; [done|].
  rewrite (Nat.div_mod_eq (length prec) d) at 1. lia.
Qed.

(** ** Priors, further *)

Section MorePriors.
Context `{Imports}.

(** X3. On a model without prior, [SetPrior] with fewer priors than the
    model has labels (none at all, for one) succeeds, and every later
    [Classify] panics: the log-prior array is indexed by a label it does
    not cover. *)
Theorem SetPrior_too_few gc (priors : list float) :
  LogPrior gc = None →
  (length priors < length (LogCoefs gc))%nat →
  ∃ gc', SetPrior gc priors = Ret gc' ∧ ∀ x, Classify gc' x = Panic.
Proof.
  intros Hnone Hlen. exists (with_prior gc (math_Log <$> priors)).
  split; [by apply SetPrior_fresh|]. intros x. unfold Classify.
  cbn [with_prior LogCoefs].
  rewrite (for_each_panic _ _ _ (length priors)); [done|apply elem_of_seq; lia|].
  intros best. unfold Classify_step, LogPosterior. cbn [with_prior LogPrior].
  destruct (LogLikelyhood _ _ _); [|done]. cbn [Go.bind].
  rewrite index_of_nat, at_ge; [done|]. by rewrite length_fmap.
Qed.

(** X4. Of two calls of [SetPrior] with as many priors, on a model without
    prior, the second one wins: the result is that of the second call
    alone. *)
Theorem SetPrior_twice gc (priors1 priors2 : list float) :
  LogPrior gc = None →
  length priors1 = length priors2 →
  (gc1 <- SetPrior gc priors1 ;; SetPrior gc1 priors2) = SetPrior gc priors2.
Proof.
  intros Hnone Hlen. rewrite !SetPrior_fresh by done. cbn [Go.bind].
  rewrite (SetPrior_shorter _ _ (math_Log <$> priors1)); [|done|].
  - rewrite drop_ge by (rewrite length_fmap; lia). by rewrite app_nil_r.
  - rewrite length_fmap. lia.
Qed.

End MorePriors.

(** ** Training, further *)

Lemma fsum_ext (f g : nat → float) n :
  (∀ i, (i < n)%nat → f i = g i) → fsum f n = fsum g n.
Proof.
  intros E. induction n as [|n IH]; [done|].
  rewrite !fsum_S, IH, E by (intros; try apply E; lia). done.
Qed.

Lemma sample_covariance_lookup lfs lbl k l :
  (k < Z.to_nat (Dim lfs))%nat → (l < Z.to_nat (Dim lfs))%nat →
  sample_covariance lfs lbl !! (k * Z.to_nat (Dim lfs) + l)%nat
  = Some (sample_cov lfs lbl (k `min` l) (k `max` l)).
Proof. intros Hk Hl. unfold sample_covariance. by rewrite tabulate_lookup. Qed.

(** The statistics of a label are those of its features alone. *)
Lemma sample_mean_ext lfs1 lfs2 lbl1 lbl2 k :
  FeatureCount lfs1 (Z.of_nat lbl1) = FeatureCount lfs2 (Z.of_nat lbl2) →
  (∀ i, (i < samples lfs1 lbl1)%nat → feature lfs1 lbl1 i k = feature lfs2 lbl2 i k) →
  sample_mean lfs1 lbl1 k = sample_mean lfs2 lbl2 k.
Proof.
  intros Hcnt Hf. unfold sample_mean, samples in *. rewrite <- Hcnt.
  f_equal. by apply fsum_ext.
Qed.

Lemma sample_cov_ext lfs1 lfs2 lbl1 lbl2 k l :
  FeatureCount lfs1 (Z.of_nat lbl1) = FeatureCount lfs2 (Z.of_nat lbl2) →
  (∀ i, (i < samples lfs1 lbl1)%nat → feature lfs1 lbl1 i k = feature lfs2 lbl2 i k) →
  (∀ i, (i < samples lfs1 lbl1)%nat → feature lfs1 lbl1 i l = feature lfs2 lbl2 i l) →
  sample_cov lfs1 lbl1 k l = sample_cov lfs2 lbl2 k l.
Proof.
  intros Hcnt Hk Hl.
  assert (Hd : deviation_products lfs1 lbl1 k l = deviation_products lfs2 lbl2 k l).
  { unfold deviation_products.
    rewrite (sample_mean_ext lfs1 lfs2 lbl1 lbl2 k),
      (sample_mean_ext lfs1 lfs2 lbl1 lbl2 l) by done.
    replace (samples lfs2 lbl2) with (samples lfs1 lbl1)
      by (unfold samples; by rewrite Hcnt).
    apply fsum_ext. intros i Hi. by rewrite Hk, Hl. }
  unfold sample_cov. by rewrite Hd, Hcnt.
Qed.

Lemma sample_statistics_ext lfs1 lfs2 lbl1 lbl2 :
  Dim lfs1 = Dim lfs2 →
  FeatureCount lfs1 (Z.of_nat lbl1) = FeatureCount lfs2 (Z.of_nat lbl2) →
  (∀ i k, (i < samples lfs1 lbl1)%nat → (k < Z.to_nat (Dim lfs1))%nat →
          feature lfs1 lbl1 i k = feature lfs2 lbl2 i k) →
  sample_means lfs1 lbl1 = sample_means lfs2 lbl2 ∧
  sample_covariance lfs1 lbl1 = sample_covariance lfs2 lbl2.
Proof.
  intros Hdim Hcnt Hf. split.
  - unfold sample_means. rewrite <- Hdim. apply list_eq. intros k.
    rewrite !list_lookup_fmap.
    destruct (decide (k < Z.to_nat (Dim lfs1))%nat) as [Hk|Hk].
    + rewrite lookup_seq_lt by done. simpl. f_equal.
      apply sample_mean_ext; [done|]. intros i Hi. by apply Hf.
    + by rewrite lookup_seq_ge by lia.
  - unfold sample_covariance. rewrite <- Hdim. apply tabulate_ext.
    intros k l Hk Hl. apply sample_cov_ext; [done|..]; intros i Hi; apply Hf; lia.
Qed.

Section MoreTraining.
Context `{Imports}.

Lemma fit_labels_lengths lfs lbls clsfr gc :
  fit_labels lfs lbls clsfr = Some gc →
  length (Means gc) = length (Means clsfr) ∧
  length (Precs gc) = length (Precs clsfr).
Proof.
  revert clsfr. induction lbls as [|lbl rest IH]; intros clsfr Hfit.
  { simpl in Hfit. by injection Hfit as <-. }
  cbn [fit_labels] in Hfit.
  destruct (Inverse (sample_covariance lfs lbl) _); [|done].
  apply IH in Hfit as [Hm Hp]. cbn in Hm, Hp.
  by rewrite length_insert in Hm, Hp.
Qed.

Lemma fit_labels_None_inv lfs lbls clsfr :
  fit_labels lfs lbls clsfr = None →
  ∃ lbl, lbl ∈ lbls ∧
    Inverse (sample_covariance lfs lbl) (Z.to_nat (Dim lfs)) = None.
Proof.
  revert clsfr. induction lbls as [|lbl rest IH]; intros clsfr Hfit; [done|].
  cbn [fit_labels] in Hfit.
  destruct (Inverse (sample_covariance lfs lbl) _) as [inv|] eqn:Hinv.
  - apply IH in Hfit as (lbl' & Hin & Hnone). exists lbl'. split; [by right|done].
  - exists lbl. split; [left|done].
Qed.

(** X6. [GaussianTrain] returns [nil] only for an inversion that failed:
    when it returns [nil], the inverse of the covariance of some label of
    the feature source was an error. *)
Theorem GaussianTrain_nil_cause lfs :
  GaussianTrain lfs = Ret None →
  ∃ lbl : nat, Z.of_nat lbl < LabelCount lfs ∧
    Inverse (sample_covariance lfs lbl) (Z.to_nat (Dim lfs)) = None.
Proof.
  rewrite GaussianTrain_spec.
  destruct (LabelCount lfs <? 0) eqn:Hl; [done|].
  destruct (Dim lfs <? 0) eqn:Hd; [done|]. cbn [orb].
  apply Z.ltb_ge in Hl. intros [= Hfit].
  apply fit_labels_None_inv in Hfit as (lbl & Hin & Hinv).
  apply elem_of_seq in Hin. exists lbl. split; [lia|done].
Qed.

(** X7. The shape of a model [GaussianTrain] returns: one mean, one
    precision and one log-coefficient per label, every mean of the
    dimension of the features, and no prior. *)
Theorem GaussianTrain_shape lfs gc :
  GaussianTrain lfs = Ret (Some gc) →
  length (Means gc) = Z.to_nat (LabelCount lfs) ∧
  length (Precs gc) = Z.to_nat (LabelCount lfs) ∧
  length (LogCoefs gc) = Z.to_nat (LabelCount lfs) ∧
  (∀ mean, mean ∈ Means gc → length mean = Z.to_nat (Dim lfs)) ∧
  LogPrior gc = None.
Proof.
  intros Htrain. pose proof Htrain as Hspec. rewrite GaussianTrain_spec in Hspec.
  destruct (LabelCount lfs <? 0) eqn:Hl; [done|].
  destruct (Dim lfs <? 0) eqn:Hd; [done|]. cbn [orb] in Hspec.
  injection Hspec as Hfit. apply Z.ltb_ge in Hl, Hd.
  destruct (fit_labels_lengths _ _ _ _ Hfit) as [Hm Hp].
  cbn in Hm, Hp. rewrite length_replicate in Hm, Hp.
  assert (Hfitted : ∀ lbl : nat, (lbl < Z.to_nat (LabelCount lfs))%nat →
            fitted lfs gc lbl ∧ length (LogCoefs gc) = Z.to_nat (LabelCount lfs)
            ∧ LogPrior gc = None).
  { intros lbl Hlbl.
    destruct (GaussianTrain_fitted lfs gc lbl Htrain) as (_ & ? & ? & ?); [lia|done]. }
  split; [done|]. split; [done|].
  destruct (Z.to_nat (LabelCount lfs)) as [|n] eqn:En.
  - apply fit_labels_Some in Hfit as (_ & _ & Hlc & Hprior);
      [|apply NoDup_seq|intros l Hin; by apply elem_of_nil in Hin].
    cbn in Hlc, Hprior. rewrite En in Hlc. split; [done|]. split; [|done].
    intros mean Hin. destruct (Means gc); [by apply elem_of_nil in Hin|done].
  - destruct (Hfitted O) as (_ & Hlc & Hprior); [lia|].
    split; [done|]. split; [|done].
    intros mean Hin. apply list_elem_of_lookup in Hin as [lbl Hlbl].
    destruct (Hfitted lbl) as ((Hmean & _) & _).
    { apply lookup_lt_Some in Hlbl. lia. }
    rewrite Hmean in Hlbl. injection Hlbl as <-.
    unfold sample_means. by rewrite length_map, length_seq.
Qed.

End MoreTraining.

Section TrainThenClassify.
Context `{Imports}.

(** X9. Lines 118-154 of [GaussianTrain], on buffers of the lengths it
    allocates, never panic, for any count of features (zero and negative
    ones too); what they compute does not depend on what the buffers [x]
    and [sigma] hold from the label before; and the matrix they leave in
    [sigma] is symmetric. *)
Theorem estimate_buffers lfs lbl (x1 s1 x2 s2 : list float) :
  0 ≤ Dim lfs →
  length x1 = Z.to_nat (Dim lfs) → length x2 = Z.to_nat (Dim lfs) →
  length s1 = (Z.to_nat (Dim lfs) * Z.to_nat (Dim lfs))%nat →
  length s2 = (Z.to_nat (Dim lfs) * Z.to_nat (Dim lfs))%nat →
  ∃ mean sigma x1' x2',
    estimate lfs lbl x1 s1 = Ret (mean, x1', sigma) ∧
    estimate lfs lbl x2 s2 = Ret (mean, x2', sigma) ∧
    length mean = Z.to_nat (Dim lfs) ∧
    length sigma = (Z.to_nat (Dim lfs) * Z.to_nat (Dim lfs))%nat ∧
    ∀ k l, (k < Z.to_nat (Dim lfs))%nat → (l < Z.to_nat (Dim lfs))%nat →
      sigma !! (l * Z.to_nat (Dim lfs) + k)%nat
      = sigma !! (k * Z.to_nat (Dim lfs) + l)%nat.
Proof.
  intros Hd Hx1 Hx2 Hs1 Hs2.
  destruct (estimate_spec lfs lbl x1 s1 Hd Hx1 Hs1) as (x1' & E1 & _).
  destruct (estimate_spec lfs lbl x2 s2 Hd Hx2 Hs2) as (x2' & E2 & _).
  exists (sample_means lfs lbl), (sample_covariance lfs lbl), x1', x2'.
  split; [done|]. split; [done|]. split.
  { unfold sample_means. by rewrite length_map, length_seq. }
  split; [apply length_tabulate|].
  intros k l Hk Hl. rewrite !sample_covariance_lookup by done.
  by rewrite Nat.min_comm, Nat.max_comm.
Qed.

(** X10. What training stores for a label depends on the features of that
    label only (and on the dimension): two feature sources that agree on
    them give, where both train, the same mean, precision and
    log-coefficient for it, whatever their other labels and wherever the
    label stands among them. *)
Theorem GaussianTrain_label_independent lfs1 lfs2 gc1 gc2 (lbl1 lbl2 : nat) :
  GaussianTrain lfs1 = Ret (Some gc1) →
  GaussianTrain lfs2 = Ret (Some gc2) →
  Z.of_nat lbl1 < LabelCount lfs1 → Z.of_nat lbl2 < LabelCount lfs2 →
  Dim lfs1 = Dim lfs2 →
  FeatureCount lfs1 (Z.of_nat lbl1) = FeatureCount lfs2 (Z.of_nat lbl2) →
  (∀ i k, (i < samples lfs1 lbl1)%nat → (k < Z.to_nat (Dim lfs1))%nat →
          feature lfs1 lbl1 i k = feature lfs2 lbl2 i k) →
  Means gc1 !! lbl1 = Means gc2 !! lbl2 ∧
  Precs gc1 !! lbl1 = Precs gc2 !! lbl2 ∧
  LogCoefs gc1 !! lbl1 = LogCoefs gc2 !! lbl2.
Proof.
  intros Ht1 Ht2 Hl1 Hl2 Hdim Hcnt Hf.
  destruct (GaussianTrain_fitted lfs1 gc1 lbl1 Ht1 Hl1)
    as (_ & (Hm1 & inv1 & Hi1 & Hp1 & Hc1) & _).
  destruct (GaussianTrain_fitted lfs2 gc2 lbl2 Ht2 Hl2)
    as (_ & (Hm2 & inv2 & Hi2 & Hp2 & Hc2) & _).
  destruct (sample_statistics_ext lfs1 lfs2 lbl1 lbl2 Hdim Hcnt Hf) as [Em Es].
  rewrite Hm1, Hm2, Hp1, Hp2, Hc1, Hc2.
  unfold logCoef_of. rewrite Es, Hdim in *.
  rewrite Hi1 in Hi2. injection Hi2 as ->. by rewrite Em.
Qed.

(** X11. A model [GaussianTrain] returns classifies every query of the
    dimension of the features (or longer) without panic, into a label of
    the feature source, provided the inverses the matrix package returned
    have [dim * dim] elements. *)
Theorem trained_model_classifies lfs gc x :
  GaussianTrain lfs = Ret (Some gc) →
  (∀ (lbl : nat) inv, Z.of_nat lbl < LabelCount lfs →
     Inverse (sample_covariance lfs lbl) (Z.to_nat (Dim lfs)) = Some inv →
     length inv = (Z.to_nat (Dim lfs) * Z.to_nat (Dim lfs))%nat) →
  (Z.to_nat (Dim lfs) ≤ length x)%nat →
  ∃ label, Classify gc x = Ret label ∧
    (LabelCount lfs = 0 → label = -1) ∧
    (0 < LabelCount lfs → 0 ≤ label < LabelCount lfs).
Proof.
  intros Htrain Hinv Hx.
  assert (Hn : length (LogCoefs gc) = Z.to_nat (LabelCount lfs) ∧ 0 ≤ LabelCount lfs).
  { pose proof Htrain as Hspec. rewrite GaussianTrain_spec in Hspec.
    destruct (LabelCount lfs <? 0) eqn:Hl; [done|].
    destruct (Dim lfs <? 0) eqn:Hd; [done|]. cbn [orb] in Hspec.
    injection Hspec as Hfit. apply Z.ltb_ge in Hl. split; [|done].
    apply fit_labels_Some in Hfit as (_ & _ & Hlc & _).
    - cbn in Hlc. by rewrite length_replicate in Hlc.
    - apply NoDup_seq.
    - intros l Hin. apply elem_of_seq in Hin. cbn. rewrite !length_replicate. lia. }
  destruct Hn as [Hn Hl0].
  assert (Hs : ∀ j, (j < length (LogCoefs gc))%nat →
            LogPosterior gc (Z.of_nat j) x = Ret (score_of gc x j)).
  { intros j Hj.
    destruct (GaussianTrain_fitted lfs gc j Htrain)
      as (_ & (Hm & inv & Hi & Hp & Hc) & _ & Hprior); [lia|].
    destruct (LogLikelyhood_returns gc j x _ _ _ Hc Hm Hp) as [v Hv].
    - unfold sample_means. by rewrite length_map, length_seq.
    - unfold sample_means, precision_of. rewrite !length_map, length_seq.
      rewrite (Hinv j inv); [done|lia|done].
    - apply score_of_returns with v. unfold LogPosterior. by rewrite Hprior. }
  unfold Classify. pose proof (Classify_loop gc x _ _ Hs) as Hloop.
  destruct (length (LogCoefs gc)) as [|n] eqn:En.
  - rewrite Hloop. simpl. exists (-1). split; [done|]. split; [done|]. lia.
  - destruct Hloop as (r & -> & Hr & _). simpl. exists (Z.of_nat r).
    split; [done|]. split; lia.
Qed.

(** X13. For a label without feature, lines 118-154 leave a mean whose
    components are all NaN (0/0), not zeros, and the zero matrix in
    [sigma]. *)
Theorem estimate_no_feature lfs lbl (x s : list float) :
  0 ≤ Dim lfs →
  length x = Z.to_nat (Dim lfs) →
  length s = (Z.to_nat (Dim lfs) * Z.to_nat (Dim lfs))%nat →
  FeatureCount lfs (Z.of_nat lbl) = 0 →
  ∃ x', estimate lfs lbl x s
        = Ret (replicate (Z.to_nat (Dim lfs)) nan, x',
               replicate (Z.to_nat (Dim lfs) * Z.to_nat (Dim lfs)) 0%float).
Proof.
  intros Hd Hx Hs Hcnt.
  destruct (estimate_spec lfs lbl x s Hd Hx Hs) as (x' & -> & _).
  exists x'. rewrite sample_covariance_no_sample by done. do 3 f_equal.
  unfold sample_means. apply list_eq. intros k. rewrite list_lookup_fmap.
  destruct (decide (k < Z.to_nat (Dim lfs))%nat) as [Hk|Hk].
  - rewrite lookup_seq_lt, lookup_replicate_2 by done. simpl. f_equal.
    unfold sample_mean, samples. rewrite Hcnt. vm_compute. reflexivity.
  - rewrite lookup_seq_ge by lia. simpl. symmetry.
    apply lookup_replicate_None. lia.
Qed.

End TrainThenClassify.

(** * Examples *)

Example scenario_trained :
  GaussianTrain (H := scalar_imports) scenario = Ret (Some scenario_model).
Proof. vm_compute. reflexivity. Qed.

Example scenario_classified :
  Classify scenario_model [(-0.75)%float] = Ret 0 ∧
  Classify scenario_model [0.75%float] = Ret 1.
Proof. split; vm_compute; reflexivity. Qed.

Lemma Classify_argmax_witness :
  ∃ label, Classify unit_model [1%float] = Ret label.
Proof.
  destruct (Classify_argmax unit_model [1%float] (fun _ => (-1.5)%float))
    as (label & Hlabel & _).
  - intros j Hj. destruct j as [|[|j]]; [vm_compute; reflexivity..|].
    simpl in Hj. lia.
  - exists label. exact Hlabel.
Defined.

Lemma Classify_never_sentinel_witness : Classify poisoned_model [1%float] = Ret 0.
Proof.
  destruct (Classify_never_sentinel poisoned_model [1%float] (fun _ => nan))
    as (label & Hlabel & _ & Hnan & _).
  - intros j Hj. destruct j as [|[|j]]; [vm_compute; reflexivity..|].
    simpl in Hj. lia.
  - simpl. lia.
  - rewrite Hlabel. f_equal. apply Hnan. intros j _. vm_compute. reflexivity.
Defined.

Lemma LogLikelyhood_formula_witness :
  LogLikelyhood unit_model (Z.of_nat 0) [1%float]
  = Ret (log_density (-1)%float [0%float] [(-0.5)%float] [1%float]).
Proof. apply (LogLikelyhood_formula unit_model 0); reflexivity. Defined.

Lemma dimension_mismatch_witness :
  LogLikelyhood unit_model 0 [] = Panic ∧
  Classify unit_model [1%float; 7%float]
  = Classify unit_model (take 1 [1%float; 7%float]).
Proof.
  destruct (dimension_mismatch unit_model 1 []) as [[Hshort _] _].
  { intros mean Hm. repeat (apply elem_of_cons in Hm as [->|Hm]; [reflexivity|]).
    by apply elem_of_nil in Hm. }
  { simpl. lia. }
  destruct (dimension_mismatch unit_model 1 [1%float; 7%float]) as [_ [_ Hlong]].
  { intros mean Hm. repeat (apply elem_of_cons in Hm as [->|Hm]; [reflexivity|]).
    by apply elem_of_nil in Hm. }
  { simpl. lia. }
  split; [apply Hshort|exact Hlong].
Defined.

Lemma LogPosterior_prior_witness :
  ∃ gc', SetPrior (H := scalar_imports) unit_model [0.5%float; 0.5%float] = Ret gc'
         ∧ LogPosterior gc' (Z.of_nat 0) [1%float] = Ret (-2)%float.
Proof.
  destruct (LogPosterior_prior (H := scalar_imports) unit_model 0 [1%float]
              [0.5%float; 0.5%float]) as (_ & _ & Hset).
  destruct Hset as (gc' & logPrior & Hgc' & _ & _ & Hpost).
  - intros old Hold. discriminate Hold.
  - exists gc'. split; [exact Hgc'|].
    apply (Hpost 0.5%float (-1.5)%float); vm_compute; reflexivity.
Defined.

Lemma SetPrior_allocation_witness :
  SetPrior (H := scalar_imports) (with_prior unit_model [0%float])
    [0.5%float; 0.5%float] = Panic.
Proof.
  destruct (SetPrior_allocation (H := scalar_imports)
              (with_prior unit_model [0%float]) [0.5%float; 0.5%float])
    as (_ & Hlonger & _).
  apply (Hlonger [0%float]); [reflexivity|simpl; lia].
Defined.

Lemma GaussianTrain_mean_covariance_witness :
  ∃ mean sigma,
    Means scenario_model !! 0%nat = Some mean ∧ mean = [(-1)%float] ∧
    Inverse (Imports := scalar_imports) sigma 1 ≠ None.
Proof.
  destruct (GaussianTrain_mean_covariance (H := scalar_imports) scenario
              scenario_model 0)
    as (mean & sigma & Hmean & _ & Hinv & _).
  - vm_compute. reflexivity.
  - vm_compute. reflexivity.
  - vm_compute. discriminate.
  - exists mean, sigma. split; [exact Hmean|]. split; [|exact Hinv].
    vm_compute in Hmean. congruence.
Defined.

Lemma GaussianTrain_precision_logCoef_witness :
  Precs scenario_model !! 0%nat = Some [(4 * -0.5)%float] ∧
  LogCoefs scenario_model !! 0%nat
  = Some (-0.5 * ((0x1.921fb54442d18p+2 - 1) * 1 + (0.25 - 1)))%float.
Proof.
  destruct (GaussianTrain_precision_logCoef (H := scalar_imports) scenario
              scenario_model 0) as ((inv & Hinv & Hprec & Hcoef) & _).
  - vm_compute. reflexivity.
  - vm_compute. reflexivity.
  - vm_compute in Hinv. injection Hinv as <-.
    split; [exact Hprec|]. rewrite Hcoef. vm_compute. reflexivity.
Defined.

Lemma GaussianTrain_singular_witness :
  GaussianTrain (H := scalar_imports) degenerate = Ret None.
Proof.
  destruct (GaussianTrain_singular (H := scalar_imports) degenerate 0)
    as [Htrain _].
  - vm_compute. reflexivity.
  - vm_compute. reflexivity.
  - exact Htrain.
Defined.

Lemma GaussianTrain_too_few_samples_witness :
  sample_covariance lonely 1 = [0%float] ∧
  GaussianTrain (H := scalar_imports) lonely = Ret None.
Proof.
  destruct (GaussianTrain_too_few_samples (H := scalar_imports) lonely 1)
    as (Hzero & _).
  - vm_compute. reflexivity.
  - right. split; [reflexivity|]. intros k _. vm_compute. reflexivity.
  - vm_compute. reflexivity.
  - split; [exact Hzero|]. vm_compute. reflexivity.
Defined.

Lemma Classify_first_of_equals_witness :
  ∃ label, Classify unit_model [1%float] = Ret label ∧ label ≠ Z.of_nat 1.
Proof.
  apply (Classify_first_of_equals unit_model [1%float] (fun _ => (-1.5)%float) 0 1).
  - intros j Hj. destruct j as [|[|j]]; [vm_compute; reflexivity..|].
    simpl in Hj. lia.
  - lia.
  - simpl. lia.
  - reflexivity.
Defined.

Lemma LogLikelyhood_short_precision_witness :
  LogLikelyhood short_precision_model 0 [1%float; 1%float] = Panic.
Proof.
  apply (LogLikelyhood_short_precision short_precision_model 0 _
           [0%float; 0%float] [(-0.5)%float]); [reflexivity..|simpl; lia].
Defined.

Lemma SetPrior_too_few_witness :
  ∃ gc', SetPrior (H := scalar_imports) unit_model [0.5%float] = Ret gc'
         ∧ ∀ x, Classify gc' x = Panic.
Proof.
  apply (SetPrior_too_few (H := scalar_imports) unit_model [0.5%float]);
    [reflexivity|simpl; lia].
Defined.

Lemma SetPrior_twice_witness :
  (gc1 <- SetPrior (H := scalar_imports) unit_model [0.5%float; 0.5%float] ;;
   SetPrior (H := scalar_imports) gc1 [0.25%float; 0.75%float])
  = SetPrior (H := scalar_imports) unit_model [0.25%float; 0.75%float].
Proof.
  apply (SetPrior_twice (H := scalar_imports) unit_model); reflexivity.
Defined.

Lemma GaussianTrain_nil_cause_witness :
  ∃ lbl : nat, Z.of_nat lbl < LabelCount degenerate ∧
    Inverse (Imports := scalar_imports) (sample_covariance degenerate lbl)
      (Z.to_nat (Dim degenerate)) = None.
Proof.
  apply (GaussianTrain_nil_cause (H := scalar_imports) degenerate).
  vm_compute. reflexivity.
Defined.

Lemma GaussianTrain_shape_witness :
  length (Means scenario_model) = 2%nat ∧ LogPrior scenario_model = None.
Proof.
  destruct (GaussianTrain_shape (H := scalar_imports) scenario scenario_model)
    as (Hmeans & _ & _ & _ & Hprior).
  - vm_compute. reflexivity.
  - split; [exact Hmeans|exact Hprior].
Defined.

Lemma estimate_buffers_witness :
  ∃ mean sigma x1' x2',
    estimate scenario 0 [0%float] [0%float] = Ret (mean, x1', sigma) ∧
    estimate scenario 0 [5%float] [7%float] = Ret (mean, x2', sigma).
Proof.
  destruct (estimate_buffers scenario 0 [0%float] [0%float] [5%float] [7%float])
    as (mean & sigma & x1' & x2' & E1 & E2 & _); [simpl; lia|reflexivity..|].
  exists mean, sigma, x1', x2'. split; [exact E1|exact E2].
Defined.

Lemma GaussianTrain_label_independent_witness :
  Means scenario_model !! 0%nat = Means swapped_model !! 1%nat ∧
  Precs scenario_model !! 0%nat = Precs swapped_model !! 1%nat ∧
  LogCoefs scenario_model !! 0%nat = LogCoefs swapped_model !! 1%nat.
Proof.
  apply (GaussianTrain_label_independent (H := scalar_imports) scenario swapped).
  - vm_compute. reflexivity.
  - vm_compute. reflexivity.
  - simpl. lia.
  - simpl. lia.
  - reflexivity.
  - reflexivity.
  - intros i k Hi Hk. destruct i as [|[|[|i]]]; [reflexivity..|].
    vm_compute in Hi. lia.
Defined.

Lemma trained_model_classifies_witness :
  ∃ label, Classify scenario_model [0.25%float] = Ret label.
Proof.
  destruct (trained_model_classifies (H := scalar_imports) scenario
              scenario_model [0.25%float]) as (label & Hlabel & _).
  - vm_compute. reflexivity.
  - intros lbl inv Hlbl Hinv. destruct lbl as [|[|lbl]].
    + vm_compute in Hinv. injection Hinv as <-. reflexivity.
    + vm_compute in Hinv. injection Hinv as <-. reflexivity.
    + simpl in Hlbl. lia.
  - simpl. lia.
  - exists label. exact Hlabel.
Defined.

Lemma estimate_no_feature_witness :
  ∃ x', estimate vacant 0 [0%float] [0%float] = Ret ([nan], x', [0%float]).
Proof.
  apply (estimate_no_feature vacant 0 [0%float] [0%float]);
    [simpl; lia|reflexivity..].
Defined.
